(** * Botaniq: the identification result processor

    A shallow embedding of the logic of [app/details.jsx] and
    [app/result.jsx]: the two network calls with the single retry, the
    normalisation of the response into candidates, the sort by confidence,
    the hero-image fallback, [promote] and the care badge.

    JavaScript numbers are IEEE 754 binary64 values; they are modelled by
    the primitive floats of the prover, which are the same format. *)

From Stdlib Require Import ZArith List String Ascii Bool Lia Floats.
From Stdlib Require Uint63.
From Stdlib Require Import DecimalString Permutation Sorted.
Import ListNotations.

Set Warnings "-inexact-float,-register-all".

(** * Part 1: the JavaScript fragment the screens rely on *)

Module JS.

Local Open Scope string_scope.
Local Open Scope float_scope.

(** ** Values

    What [JSON.parse] can return, plus [undefined] (the result of reading
    an absent property).  Arrays and objects carry the identity [ref] of
    the object: [===] on them compares identities, not contents.  A text
    is held as the bytes of its UTF-8 encoding. *)
Inductive value : Type :=
| VUndefined
| VNull
| VBool (b : bool)
| VNum (n : float)
| VStr (s : string)
| VArr (ref : nat) (items : list value)
| VObj (ref : nat) (fields : list (string * value)).

(** [x || y] on numbers: a number is falsy when it is [NaN], [+0] or [-0]. *)
Definition num_truthy (n : float) : bool := negb (is_nan n || is_zero n).

Definition num_or (n d : float) : float := if num_truthy n then n else d.

Definition truthy (v : value) : bool :=
  match v with
  | VUndefined | VNull => false
  | VBool b => b
  | VNum n => num_truthy n
  | VStr s => negb (s =? EmptyString)%string
  | VArr _ _ | VObj _ _ => true
  end.

Definition nullish (v : value) : bool :=
  match v with
  | VUndefined | VNull => true
  | _ => false
  end.

(** [a || b] and [a ?? b]. *)
Definition or_else (a b : value) : value := if truthy a then a else b.
Definition coalesce (a b : value) : value := if nullish a then b else a.

Fixpoint lookup (k : string) (fields : list (string * value)) : value :=
  match fields with
  | [] => VUndefined
  | (k', v) :: rest => if (k =? k')%string then v else lookup k rest
  end.

(** A length as a number.  Lengths do not exceed [2^53 - 1]. *)
Definition of_nat (n : nat) : float :=
  of_uint63 (Uint63.of_Z (Z.min (Z.of_nat n) 9007199254740991)).

(** [v.k] for the property names the screens read.  Besides own
    properties of objects only [length] of arrays and strings exists among
    them.  The length of a text is counted in bytes; the screens only
    test it for zero. *)
Definition get (v : value) (k : string) : value :=
  match v with
  | VObj _ fields => lookup k fields
  | VArr _ items => if (k =? "length")%string then VNum (of_nat (List.length items)) else VUndefined
  | VStr s => if (k =? "length")%string then VNum (of_nat (String.length s)) else VUndefined
  | _ => VUndefined
  end.

(** [v?.k] *)
Definition opt_get (v : value) (k : string) : value :=
  if nullish v then VUndefined else get v k.

(** [a === b] *)
Definition strict_eq (a b : value) : bool :=
  match a, b with
  | VUndefined, VUndefined => true
  | VNull, VNull => true
  | VBool x, VBool y => Bool.eqb x y
  | VNum x, VNum y => (x =? y)%float
  | VStr x, VStr y => (x =? y)%string
  | VArr r _, VArr r' _ => Nat.eqb r r'
  | VObj r _, VObj r' _ => Nat.eqb r r'
  | _, _ => false
  end.

(** ** [Number(v)]

    [StringToNumber] follows the StringNumericLiteral grammar: optional
    white space around an optionally signed decimal literal or
    [Infinity], or an unsigned binary, octal or hexadecimal integer; the
    empty string is [+0] and anything else is [NaN].  The mathematical
    value is rounded to nearest-even by the division of the reference
    implementation of binary64.

    White space is what the grammar calls StrWhiteSpaceChar.  A text is
    held as the bytes of its UTF-8 encoding, so a white space character
    is one byte (tab, line feed, vertical tab, form feed, carriage return,
    space), two bytes (U+00A0) or three bytes (U+1680, U+2000 to U+200A,
    U+2028, U+2029, U+202F, U+205F, U+3000 and U+FEFF). *)
Definition is_white (c : ascii) : bool :=
  let n := nat_of_ascii c in
  ((9 <=? n) && (n <=? 13) || (n =? 32))%nat.

(** The bytes [C2 A0] of U+00A0. *)
Definition is_white2 (c d : ascii) : bool :=
  ((N_of_ascii c =? 194) && (N_of_ascii d =? 160))%N.

(** The three-byte white space characters. *)
Definition is_white3 (c d e : ascii) : bool :=
  let '(c, d, e) := (N_of_ascii c, N_of_ascii d, N_of_ascii e) in
  ((c =? 225) && (d =? 154) && (e =? 128)
   || (c =? 226) && (d =? 128)
      && ((128 <=? e) && (e <=? 138) || (e =? 168) || (e =? 169) || (e =? 175))
   || (c =? 226) && (d =? 129) && (e =? 159)
   || (c =? 227) && (d =? 128) && (e =? 128)
   || (c =? 239) && (d =? 187) && (e =? 191))%N.

(** Removes the white space characters at the head of [s]; [w2] and [w3]
    recognise the characters of two and of three bytes. *)
Fixpoint strip (w2 : ascii -> ascii -> bool) (w3 : ascii -> ascii -> ascii -> bool)
    (s : string) : string :=
  match s with
  | String c r =>
      if is_white c then strip w2 w3 r
      else
        match r with
        | String d r' =>
            if w2 c d then strip w2 w3 r'
            else
              match r' with
              | String e r'' => if w3 c d e then strip w2 w3 r'' else s
              | EmptyString => s
              end
        | EmptyString => s
        end
  | EmptyString => EmptyString
  end.

Definition trim_start (s : string) : string := strip is_white2 is_white3 s.

Fixpoint rev_string (s acc : string) : string :=
  match s with
  | String c s' => rev_string s' (String c acc)
  | EmptyString => acc
  end.

(** The white space at the end is removed on the reversed text, where
    the bytes of a character come last byte first. *)
Definition trim_end (s : string) : string :=
  rev_string
    (strip (fun c d => is_white2 d c) (fun c d e => is_white3 e d c)
       (rev_string s EmptyString))
    EmptyString.

Definition trim (s : string) : string := trim_end (trim_start s).

Definition digit_of (base : N) (c : ascii) : option N :=
  let n := N_of_ascii c in
  let d := (if (48 <=? n) && (n <=? 57) then Some (n - 48)
            else if (97 <=? n) && (n <=? 102) then Some (n - 87)
            else if (65 <=? n) && (n <=? 70) then Some (n - 55)
            else None)%N in
  match d with
  | Some d => if (d <? base)%N then Some d else None
  | None => None
  end.

(** Reads the longest prefix of digits: the number read so far, how many
    digits were read, and the rest of the string. *)
Fixpoint digits (base : N) (s : string) (acc : N) (count : nat) : N * nat * string :=
  match s with
  | String c s' =>
      match digit_of base c with
      | Some d => digits base s' (acc * base + d)%N (S count)
      | None => (acc, count, s)
      end
  | EmptyString => (acc, count, s)
  end.

(** The binary64 number nearest to [(-1)^neg * num * 10^e10]. *)
Definition round_decimal (neg : bool) (num : N) (e10 : Z) : float :=
  match num with
  | N0 => if neg then neg_zero else zero
  | Npos m =>
      let scale := Z.to_pos (10 ^ Z.abs e10) in
      SF2Prim
        (if (0 <=? e10)%Z
         then SFdiv prec emax (S754_finite neg (m * scale) 0) (S754_finite false 1 0)
         else SFdiv prec emax (S754_finite neg m 0) (S754_finite false scale 0))
  end.

Definition exponent_part (s : string) : option Z :=
  match s with
  | EmptyString => Some 0%Z
  | String c s' =>
      if ((c =? "e") || (c =? "E"))%char then
        let '(neg, s'') :=
          match s' with
          | String "+" r => (false, r)
          | String "-" r => (true, r)
          | _ => (false, s')
          end in
        match digits 10 s'' 0 0 with
        | (n, S _, EmptyString) => Some (if neg then - Z.of_N n else Z.of_N n)%Z
        | _ => None
        end
      else None
  end.

Definition unsigned_decimal (neg : bool) (s : string) : float :=
  if (s =? "Infinity")%string then (if neg then neg_infinity else infinity)
  else
    let '(int, ni, s1) := digits 10 s 0 0 in
    let '(all, nf, s2) :=
      match s1 with
      | String "." r => digits 10 r int 0
      | _ => (int, 0%nat, s1)
      end in
    match (ni + nf)%nat, exponent_part s2 with
    | S _, Some e => round_decimal neg all (e - Z.of_nat nf)
    | _, _ => nan
    end.

Definition radix_integer (base : N) (s : string) : float :=
  match digits base s 0 0 with
  | (n, S _, EmptyString) => round_decimal false n 0
  | _ => nan
  end.

Definition StringToNumber (s : string) : float :=
  match trim s with
  | EmptyString => zero
  | String "+" r => unsigned_decimal false r
  | String "-" r => unsigned_decimal true r
  | String "0" (String "x" r) | String "0" (String "X" r) => radix_integer 16 r
  | String "0" (String "o" r) | String "0" (String "O" r) => radix_integer 8 r
  | String "0" (String "b" r) | String "0" (String "B" r) => radix_integer 2 r
  | t => unsigned_decimal false t
  end.

(** Conversion of an object to a primitive, which [Number(v)] and a
    template literal begin with.  An object made by [JSON.parse] inherits
    [valueOf], which returns the object itself, and [toString], which
    gives [[object Object]].  An own property named [toString] hides the
    inherited method and is no function, and then the conversion throws a
    [TypeError]; an own [valueOf] is passed over and changes nothing.  An
    array converts through [join], which converts each of its elements
    other than [undefined] and [null] in turn.  [convertible v] tells
    that the conversion of [v] returns. *)
Definition hasOwn (k : string) (fields : list (string * value)) : bool :=
  existsb (fun kv => (fst kv =? k)%string) fields.

Fixpoint convertible (v : value) : bool :=
  match v with
  | VObj _ fields => negb (hasOwn "toString" fields)
  | VArr _ items => forallb convertible items
  | _ => true
  end.

(** The message of the [TypeError] of a conversion that throws.  The
    wording of an error that the engine raises is the engine's own; the
    properties below that speak of such an error hold for any wording. *)
Definition cannot_convert : string := "TypeError: Cannot convert object to primitive value".

(** The number that [Number(v)] returns when the conversion of [v]
    returns.  An object converts through its string [[object Object]],
    which is no numeric literal.  An array converts through the join of
    its elements: two or more elements put a comma in the string, no
    element gives the empty string, and a single element gives that
    element's own string, which for a number reads back as the same
    number ([-0] prints as [0]). *)
Fixpoint numeric (v : value) : float :=
  match v with
  | VUndefined => nan
  | VNull => zero
  | VBool b => if b then one else zero
  | VNum n => n
  | VStr s => StringToNumber s
  | VObj _ _ => nan
  | VArr _ items =>
      match items with
      | [] => zero
      | [x] =>
          match x with
          | VUndefined | VNull => zero
          | VBool _ | VObj _ _ => nan
          | VNum n => if is_zero n then zero else n
          | VStr s => StringToNumber s
          | VArr _ _ => numeric x
          end
      | _ => nan
      end
  end.

(** [Number(v)]: [None] when it throws. *)
Definition ToNumber (v : value) : option float :=
  if convertible v then Some (numeric v) else None.

(** ** Strings *)

(** [s.includes(sub)] *)
Fixpoint includes (s sub : string) : bool :=
  String.prefix sub s ||
  match s with
  | String _ s' => includes s' sub
  | EmptyString => false
  end.

(** [s.startsWith(p)] *)
Definition startsWith (s p : string) : bool := String.prefix p s.

(** [s.slice(0, n)].  The count is in the bytes of the text, which are
    its characters when the text is ASCII. *)
Definition slice0 (s : string) (n : nat) : string := String.substring 0 n s.

(** The decimal text of an integer in a template literal. *)
Definition show_nat (n : nat) : string := NilEmpty.string_of_uint (Nat.to_uint n).

(** ** [Array.prototype.sort]

    [sort] is stable, and on a comparator that orders the elements
    consistently its result is the one of the insertion procedure below.
    The value a comparator returns is read through [SortCompare]: a [NaN]
    counts as [+0]; a positive value puts the second argument first. *)
Section Sort.
Context {A : Type} (comparefn : A -> A -> float).

Definition SortCompare (x y : A) : float :=
  let v := comparefn x y in if is_nan v then zero else v.

Fixpoint insert (x : A) (l : list A) : list A :=
  match l with
  | [] => [x]
  | y :: l' => if 0 <? SortCompare x y then y :: insert x l' else x :: l
  end.

Fixpoint sort (l : list A) : list A :=
  match l with
  | [] => []
  | x :: l' => insert x (sort l')
  end.
End Sort.

(** [arr.findIndex(p)], [-1] when no element satisfies [p]. *)
Fixpoint findIndex {A : Type} (p : A -> bool) (l : list A) : Z :=
  match l with
  | [] => (-1)%Z
  | x :: l' =>
      if p x then 0%Z
      else let i := findIndex p l' in if (0 <=? i)%Z then (i + 1)%Z else (-1)%Z
  end.

(** ** Effects

    A promise settles with a value or is rejected; an exception is
    represented by its [message], the only part the screens read. *)
Inductive settled (A : Type) : Type :=
| Fulfilled (a : A)
| Rejected (message : string).
Arguments Fulfilled {A} a.
Arguments Rejected {A} message.

(** The outcome of [JSON.parse] on the body of a response. *)
Inductive parsed : Type :=
| Parsed (v : value)
| SyntaxError (message : string).

(** A response of [fetch]: [text] is [await res.text()] and [json] is what
    [JSON.parse] makes of that text. *)
Record response := { status : nat; text : string; json : parsed }.

(** [res.ok] *)
Definition ok (res : response) : bool :=
  ((200 <=? status res) && (status res <=? 299))%nat.

(** The two requests of the plant.id API, by their varying parts: the
    body of [POST /api/v3/identification], and the token and query of
    [GET /api/v3/identification/{token}]. *)
Inductive request : Type :=
| Create (images : list string) (similar_images : bool)
| Retrieve (token : value) (fields : list string) (language : string).

Inductive io (A : Type) : Type :=
| Ret (a : A)
| Throw (message : string)
| ReadAsString (uri : string) (k : settled string -> io A)
| Fetch (r : request) (k : settled response -> io A)
| Alert (title message : string) (k : io A)
| Delay (ms : nat) (k : io A).
Arguments Ret {A} a.
Arguments Throw {A} message.
Arguments ReadAsString {A} uri k.
Arguments Fetch {A} r k.
Arguments Alert {A} title message k.
Arguments Delay {A} ms k.

Fixpoint bind {A B : Type} (m : io A) (f : A -> io B) : io B :=
  match m with
  | Ret a => f a
  | Throw e => Throw e
  | ReadAsString u k => ReadAsString u (fun r => bind (k r) f)
  | Fetch r k => Fetch r (fun x => bind (k x) f)
  | Alert t msg k => Alert t msg (bind k f)
  | Delay ms k => Delay ms (bind k f)
  end.

(** [try { m } catch (e) { handler(e.message) }] *)
Fixpoint try_catch {A : Type} (m : io A) (handler : string -> io A) : io A :=
  match m with
  | Ret a => Ret a
  | Throw e => handler e
  | ReadAsString u k => ReadAsString u (fun r => try_catch (k r) handler)
  | Fetch r k => Fetch r (fun x => try_catch (k x) handler)
  | Alert t msg k => Alert t msg (try_catch k handler)
  | Delay ms k => Delay ms (try_catch k handler)
  end.

(** [await p]: a rejected promise throws. *)
Definition await {A : Type} (r : settled A) : io A :=
  match r with
  | Fulfilled a => Ret a
  | Rejected e => Throw e
  end.

(** [arr.map(f)] for an [f] that may throw. *)
Fixpoint mapM {A B : Type} (f : A -> io B) (l : list A) : io (list B) :=
  match l with
  | [] => Ret []
  | x :: l' => bind (f x) (fun y => bind (mapM f l') (fun ys => Ret (y :: ys)))
  end.

(** A computation without effects: it returns or throws at once. *)
Definition pure {A : Type} (m : io A) : Prop :=
  (exists a, m = Ret a) \/ (exists e, m = Throw e).

(** ** Running a computation

    The world answers file reads and requests; an answer may depend on
    the requests sent before.  [run] returns what happened, in order, and
    how the computation ended. *)
Record world := {
  readFile : string -> settled string;
  respond : list request -> request -> settled response
}.

Inductive event : Type :=
| Read (uri : string)
| Sent (r : request)
| Alerted (title message : string)
| Waited (ms : nat).

Fixpoint run {A : Type} (w : world) (sent : list request) (m : io A)
  : list event * settled A :=
  match m with
  | Ret a => ([], Fulfilled a)
  | Throw e => ([], Rejected e)
  | ReadAsString u k =>
      let '(tr, out) := run w sent (k (readFile w u)) in (Read u :: tr, out)
  | Fetch r k =>
      let '(tr, out) := run w (sent ++ [r]) (k (respond w sent r)) in
      (Sent r :: tr, out)
  | Alert t msg k =>
      let '(tr, out) := run w sent k in (Alerted t msg :: tr, out)
  | Delay ms k =>
      let '(tr, out) := run w sent k in (Waited ms :: tr, out)
  end.

(** The requests in a trace. *)
Fixpoint requests (tr : list event) : list request :=
  match tr with
  | Sent r :: tr' => r :: requests tr'
  | _ :: tr' => requests tr'
  | [] => []
  end.

Definition is_create (r : request) : bool :=
  match r with Create _ _ => true | Retrieve _ _ _ => false end.

(** ** Exact values of binary64 numbers

    [rank x] is the value of [x] scaled by [2^1074], an integer; the
    infinities sit just outside the finite range. *)
Definition rank (x : spec_float) : Z :=
  match x with
  | S754_zero _ => 0
  | S754_nan => 0
  | S754_infinity s => cond_Zopp s (2 ^ (emax - emin))
  | S754_finite s m e => cond_Zopp s (Zpos m * 2 ^ (e - emin))
  end.

Definition is_num (x : spec_float) : bool :=
  match x with S754_nan => false | _ => true end.

Definition has_sign (s : bool) (r : spec_float) : Prop :=
  match r with
  | S754_finite s' _ _ | S754_infinity s' => s' = s
  | _ => False
  end.

Definition fval (x : float) : Z := rank (Prim2SF x).

(** [sign_matches c r]: the sign of [r] is the one the comparison [c] of the
    subtrahend with the minuend announces. *)
Definition sign_matches (c : comparison) (r : spec_float) : Prop :=
  match c with
  | Lt => has_sign false r
  | Gt => has_sign true r
  | Eq => match r with S754_zero _ | S754_nan => True | _ => False end
  end.

(** ** [toLowerCase], on the letters A to Z

    The other bytes are kept.  No character outside ASCII lower-cases to
    an ASCII letter of the word searched for below, so a search for that
    word in the lower-cased text sees what the engine's [toLowerCase]
    would show it. *)
Definition lower (c : ascii) : ascii :=
  let n := nat_of_ascii c in
  if ((65 <=? n) && (n <=? 90))%nat then ascii_of_nat (n + 32) else c.

Fixpoint toLowerCase (s : string) : string :=
  match s with
  | String c s' => String (lower c) (toLowerCase s')
  | EmptyString => EmptyString
  end.

End JS.

(** * Part 2: [app/details.jsx] *)

Module Details.
Import JS.
Local Open Scope string_scope.
Local Open Scope float_scope.

(** Toggle mock data to save API credits. *)
Definition USE_FAKE_RESULTS : bool := true.

(** One entry of [ordered]. *)
Record candidate := {
  label : value;
  sci : value;
  confidence : float;
  details : value;
  gallery : list value
}.

(** The state of the screen. *)
Record screen := {
  loading : bool;
  ordered : list candidate;
  currentIndex : Z;
  showOthers : bool;
  active : Z
}.

(** The route parameter [uri] of [useLocalSearchParams]: absent, a string,
    or a list of strings when the parameter is repeated. *)
Inductive param : Type :=
| PMissing
| PStr (s : string)
| PList (l : list string).

Definition param_truthy (p : param) : bool :=
  match p with
  | PMissing => false
  | PStr s => negb (s =? EmptyString)%string
  | PList _ => true
  end.

(** [String(uri)] *)
Definition String_ (p : param) : string :=
  match p with
  | PMissing => "undefined"
  | PStr s => s
  | PList l => String.concat "," l
  end.

Definition detail_fields : list string :=
  ["common_names"; "url"; "wiki_description"; "edible_parts"; "watering"; "toxicity"].

Definition createIdentification (imagesArray : list string) : io value :=
  Fetch (Create imagesArray true) (fun r =>
    bind (await r) (fun res =>
      let txt := text res in
      if negb (ok res) then Throw ("Create " ++ show_nat (status res) ++ ": " ++ txt)
      else match json res with
           | Parsed v => Ret v
           | SyntaxError e => Throw e
           end)).

(** The address of the request is a template literal that holds the
    token: building it throws when the token cannot be converted, before
    anything is sent. *)
Definition retrieveIdentification (token : value) : io value :=
  if negb (convertible token) then Throw cannot_convert
  else
    Fetch (Retrieve token detail_fields "en") (fun r =>
      bind (await r) (fun res =>
        let txt := text res in
        if negb (ok res) then Throw ("Retrieve " ++ show_nat (status res) ++ ": " ++ txt)
        else match json res with
             | Parsed v => Ret v
             | SyntaxError e => Throw e
             end)).

(** What a call of [createIdentification] ends with, given the answer to
    its request. *)
Definition createResult (r : settled response) : settled value :=
  match r with
  | Rejected e => Rejected e
  | Fulfilled res =>
      if negb (ok res) then Rejected ("Create " ++ show_nat (status res) ++ ": " ++ text res)
      else match json res with
           | Parsed v => Fulfilled v
           | SyntaxError e => Rejected e
           end
  end.

(** The [try] block of [identify]: raw base64 first, and one more attempt
    with a data-URI prefix when the error message contains
    ["Create 400"]. *)
Definition createWithRetry (base64 : string) : io value :=
  try_catch (createIdentification [base64])
    (fun e =>
       if includes e "Create 400"
       then createIdentification ["data:image/jpeg;base64," ++ base64]
       else Throw e).

Definition mock : list candidate :=
  [ {| label := VStr "String of Buttons";
       sci := VStr "Curio repens";
       confidence := 0.95;
       details := VObj 1
         [ ("common_names", VArr 2 [VStr "String of Buttons"]);
           ("wiki_description", VObj 3
              [("value", VStr "A creeping succulent with blue-green, button-like leaves.")]);
           ("edible_parts", VArr 4 []);
           ("watering", VObj 5 [("min", VNum 0.1); ("max", VNum 0.3)]);
           ("url", VStr "https://en.wikipedia.org/wiki/Curio_repens") ];
       gallery :=
         [ VStr "https://images.unsplash.com/photo-1545249390-5c6f2f9c2f5d?q=80&w=1200";
           VStr "https://images.unsplash.com/photo-1520896696177-2c17c7c47a9f?q=80&w=1200" ] |};
    {| label := VStr "Senecio serpens";
       sci := VStr "Senecio serpens";
       confidence := 0.78;
       details := VObj 6
         [ ("common_names", VArr 7 [VStr "Blue Chalksticks"]);
           ("wiki_description", VObj 8 [("value", VStr "A blue-grey succulent.")]) ];
       gallery :=
         [ VStr "https://images.unsplash.com/photo-1604586374968-3e2fd1f3e3f5?q=80&w=1200" ] |};
    {| label := VStr "Crassula perforata";
       sci := VStr "Crassula perforata";
       confidence := 0.62;
       details := VObj 9
         [ ("common_names", VArr 10 [VStr "String of Buttons (Crassula)"]);
           ("wiki_description", VObj 11 [("value", VStr "Stacked leaves on columns.")]) ];
       gallery :=
         [ VStr "https://images.unsplash.com/photo-1501004318641-b39e6451bec6?q=80&w=1200" ] |} ].

(** [full?.result?.classification?.suggestions ??
     full?.result?.is_plant?.classification?.suggestions ?? []] *)
Definition locateSuggestions (full : value) : value :=
  coalesce
    (opt_get (opt_get (opt_get full "result") "classification") "suggestions")
    (coalesce
       (opt_get (opt_get (opt_get (opt_get full "result") "is_plant") "classification")
          "suggestions")
       (VArr 0 [])).

(** The function given to [suggestions.map].  The properties of the
    candidate are computed in the order they are written: [Number] throws
    when the probability cannot be converted, and after it [.map] on the
    similar images throws when they are neither falsy nor an array. *)
Definition mapSuggestion (s : value) : io candidate :=
  match ToNumber (coalesce (opt_get s "probability") (VNum 0)) with
  | None => Throw cannot_convert
  | Some n =>
      match or_else (opt_get s "similar_images") (VArr 0 []) with
      | VArr _ imgs =>
          Ret {| label := or_else (opt_get s "name") (VStr "Unknown");
                 sci := opt_get s "name";
                 confidence := n;
                 details := or_else (opt_get s "details") VNull;
                 gallery := filter truthy (map (fun img => opt_get img "url") imgs) |}
      | _ => Throw "TypeError: undefined is not a function"
      end
  end.

(** [x.confidence || 0], the confidence as the comparator reads it. *)
Definition effective (x : candidate) : float := num_or (confidence x) 0.

(** [(a, b) => (b.confidence || 0) - (a.confidence || 0)] *)
Definition byConfidence (a b : candidate) : float := effective b - effective a.

(** Two candidates that agree on everything but the gallery. *)
Definition sameButGallery (a b : candidate) : Prop :=
  label a = label b /\ sci a = sci b /\ confidence a = confidence b /\
  details a = details b.

(** [if (!mapped[0].gallery?.length && uri) mapped[0].gallery = [String(uri)]] *)
Definition heroFallback (uri : param) (mapped : list candidate) : io (list candidate) :=
  match mapped with
  | [] => Throw "TypeError: undefined is not an object"
  | top :: rest =>
      if match gallery top with [] => true | _ => false end && param_truthy uri
      then Ret ({| label := label top; sci := sci top; confidence := confidence top;
                   details := details top; gallery := [VStr (String_ uri)] |} :: rest)
      else Ret mapped
  end.

(** The part of [identify] after the response [full] is known: locate the
    suggestions, report no matches, or map, sort and show them. *)
Definition showSuggestions (uri : param) (st : screen) (full : value) : io screen :=
  let suggestions := locateSuggestions full in
  if negb (truthy (get suggestions "length")) then
    Alert "No matches" "Try a closer, well-lit photo of a single leaf/flower."
      (Ret {| loading := false; ordered := []; currentIndex := 0;
              showOthers := showOthers st; active := active st |})
  else
    match suggestions with
    | VArr _ items =>
        bind (mapM mapSuggestion items) (fun raw =>
        let mapped := sort byConfidence raw in
        bind (heroFallback uri mapped) (fun mapped =>
        Ret {| loading := false; ordered := mapped; currentIndex := 0;
               showOthers := showOthers st; active := active st |}))
    | _ => Throw "TypeError: undefined is not a function"
    end.

(** [identify].  The constant [USE_FAKE_RESULTS] is the argument [fake], so
    that both settings can be stated; the screen runs
    [identify USE_FAKE_RESULTS]. *)
Definition identify (fake : bool) (uri : param) (st : screen) : io screen :=
  if fake then
    Delay 500
      (Ret {| loading := false; ordered := mock; currentIndex := 0;
              showOthers := showOthers st; active := active st |})
  else if negb (param_truthy uri) || negb (startsWith (String_ uri) "file://") then
    Throw "Invalid file URI"
  else
    ReadAsString (String_ uri) (fun r =>
    bind (await r) (fun base64 =>
    bind (createWithRetry base64) (fun created =>
    let token := or_else (opt_get created "id") (opt_get created "access_token") in
    bind (if truthy token then retrieveIdentification token else Ret created) (fun full =>
    showSuggestions uri st full)))).

(** The effect that runs [identify] when the screen loads. *)
Definition onLoad (fake : bool) (uri : param) (st : screen) : io screen :=
  let st := {| loading := true; ordered := ordered st; currentIndex := currentIndex st;
               showOthers := showOthers st; active := active st |} in
  try_catch (identify fake uri st) (fun e =>
    Alert "Identification failed" (slice0 (if (e =? EmptyString)%string then "Unknown error" else e) 300)
      (Ret {| loading := false; ordered := ordered st; currentIndex := currentIndex st;
              showOthers := showOthers st; active := active st |})).

(** [promote] *)
Definition promote (option : candidate) (st : screen) : screen :=
  let idx := findIndex (fun x => strict_eq (label x) (label option)) (ordered st) in
  if (0 <=? idx)%Z then
    {| loading := loading st; ordered := ordered st; currentIndex := idx;
       showOthers := false; active := 0 |}
  else st.

(** ** Badges

    The detail record as the API documents it: every part may be absent
    ([null] counts as absent, as [??] and [?.] treat it), and the bounds
    of the watering range, when present, are numbers. *)
Record range := { min : option float; max : option float }.

Record detail := {
  common_names : list string;
  wiki_description : option string;
  edible_parts : list string;
  watering : option range;
  url : option string
}.

(** [((d.watering.min ?? 0.5) + (d.watering.max ?? 0.5)) / 2] *)
Definition wateringAvg (w : range) : float :=
  (match min w with Some x => x | None => 0.5 end
   + match max w with Some x => x | None => 0.5 end) / 2.

Definition careBadge (d : option detail) : string :=
  match d with
  | None => "Moderate to Care"
  | Some d =>
      match watering d with
      | None => "Moderate to Care"
      | Some w =>
          let avg := wateringAvg w in
          if avg <=? 0.25 then "Easy Care"
          else if avg <=? 0.55 then "Moderate to Care"
          else "Thirsty"
      end
  end.

(** [d?.edible_parts?.length ? "Edible" : "Not edible"]; a list that is
    absent has no length, like the empty one. *)
Definition edibleBadge (d : option detail) : string :=
  match d with
  | None => "Not edible"
  | Some d => match edible_parts d with [] => "Not edible" | _ => "Edible" end
  end.

(** [d?.wiki_description?.value?.toLowerCase?.().includes("flower")
     ? "Flowering" : "Foliage"] *)
Definition floweringBadge (d : option detail) : string :=
  match d with
  | None => "Foliage"
  | Some d =>
      match wiki_description d with
      | None => "Foliage"
      | Some v => if includes (toLowerCase v) "flower" then "Flowering" else "Foliage"
      end
  end.

(** How much water a care badge stands for. *)
Definition thirst (badge : string) : nat :=
  if (badge =? "Easy Care")%string then 0
  else if (badge =? "Moderate to Care")%string then 1
  else 2.

(** ** The rest of the screen *)

(** [ordered[currentIndex]] *)
Definition current (st : screen) : option candidate :=
  if (0 <=? currentIndex st)%Z
  then nth_error (ordered st) (Z.to_nat (currentIndex st))
  else None.

(** [arr.filter((_, i) => i !== k)], the elements of [arr] being at the
    positions [i], [i + 1], ... *)
Fixpoint dropIndex {A : Type} (k i : Z) (l : list A) : list A :=
  match l with
  | [] => []
  | x :: l' =>
      if (i =? k)%Z then dropIndex k (i + 1) l' else x :: dropIndex k (i + 1) l'
  end.

(** [ordered.filter((_, i) => i !== currentIndex).slice(0, 2)] *)
Definition others (st : screen) : list candidate :=
  firstn 2 (dropIndex (currentIndex st) 0 (ordered st)).

(** [onBackPress]: the new state, and whether [router.back()] was
    called. *)
Definition onBackPress (st : screen) : screen * bool :=
  if negb (currentIndex st =? 0)%Z then
    ({| loading := loading st; ordered := ordered st; currentIndex := 0;
        showOthers := false; active := active st |}, false)
  else (st, true).

(** [currentIndex] points at a candidate, or there is none and it is 0. *)
Definition wellFormed (st : screen) : Prop :=
  (0 <= currentIndex st)%Z /\
  ((currentIndex st < Z.of_nat (List.length (ordered st)))%Z \/
   (ordered st = [] /\ currentIndex st = 0%Z)).

End Details.

(** * Part 3: [app/result.jsx] *)

Module Result.
Import JS.
Local Open Scope string_scope.
Local Open Scope float_scope.

(** One entry of [preds]. *)
Record prediction := {
  label : value;
  confidence : float;
  details : value;
  similar_images : value
}.

Definition detail_fields : list string :=
  ["common_names"; "url"; "wiki_description"; "edible_parts"; "watering"; "toxicity"].

Definition createIdentification (imagesArray : list string) : io value :=
  Fetch (Create imagesArray true) (fun r =>
    bind (await r) (fun res =>
      let txt := text res in
      if negb (ok res) then Throw ("Create " ++ show_nat (status res) ++ ": " ++ txt)
      else match json res with
           | Parsed v => Ret v
           | SyntaxError _ => Throw "Create: Invalid JSON response"
           end)).

Definition retrieveIdentification (token : value) : io value :=
  if negb (convertible token) then Throw cannot_convert
  else
    Fetch (Retrieve token detail_fields "da") (fun r =>
      bind (await r) (fun res =>
        let txt := text res in
        if negb (ok res) then Throw ("Retrieve " ++ show_nat (status res) ++ ": " ++ txt)
        else match json res with
             | Parsed v => Ret v
             | SyntaxError _ => Throw "Retrieve: Invalid JSON response"
             end)).

(** The [try] block of [identifyPlant]. *)
Definition createWithRetry (base64 : string) : io value :=
  try_catch (createIdentification [base64])
    (fun e =>
       if includes e "Create 400"
       then createIdentification ["data:image/jpeg;base64," ++ base64]
       else Throw e).

Definition locateSuggestions (full : value) : value :=
  coalesce
    (opt_get (opt_get (opt_get full "result") "classification") "suggestions")
    (coalesce
       (opt_get (opt_get (opt_get (opt_get full "result") "is_plant") "classification")
          "suggestions")
       (VArr 0 [])).

(** The function given to [suggestions.map]; [Number] throws when the
    probability cannot be converted. *)
Definition mapSuggestion (s : value) : io prediction :=
  match ToNumber (coalesce (opt_get s "probability") (VNum 0)) with
  | None => Throw cannot_convert
  | Some n =>
      Ret {| label := or_else (opt_get s "name") (VStr "Unknown");
             confidence := n;
             details := or_else (opt_get s "details") VNull;
             similar_images := or_else (opt_get s "similar_images") (VArr 0 []) |}
  end.

Definition identifyPlant (imageUri : string) : io (list prediction) :=
  ReadAsString imageUri (fun r =>
  bind (await r) (fun base64 =>
  bind (createWithRetry base64) (fun created =>
  let token := or_else (opt_get created "id") (opt_get created "access_token") in
  bind (if truthy token then retrieveIdentification token else Ret created) (fun full =>
  match locateSuggestions full with
  | VArr _ items => mapM mapSuggestion items
  | _ => Throw "TypeError: undefined is not a function"
  end)))).

(** The state of the screen. *)
Record state := { loading : bool; preds : option (list prediction) }.

(** [typeof uri === "string" && uri.length > 0] *)
Definition hasPhoto (uri : Details.param) : bool :=
  match uri with
  | Details.PStr s => negb (s =? EmptyString)%string
  | _ => false
  end.

(** [onIdentify]: [try], [catch] and [finally]. *)
Definition onIdentify (uri : Details.param) (st : state) : io state :=
  if negb (hasPhoto uri) then
    Alert "No photo" "Please capture a photo first." (Ret st)
  else
    bind
      (try_catch
         (bind (identifyPlant (Details.String_ uri)) (fun results =>
            let st' := {| loading := true; preds := Some results |} in
            match results with
            | [] => Alert "No matches" "Try a closer, well-lit photo of a single leaf/flower."
                      (Ret st')
            | _ => Ret st'
            end))
         (fun e =>
            Alert "Identification failed"
              (slice0 (if (e =? EmptyString)%string then "Unknown error" else e) 300)
              (Ret {| loading := true; preds := preds st |})))
      (fun st' => Ret {| loading := false; preds := preds st' |}).

End Result.

(** * Part 4: sample data *)

Module Samples.
Import JS.
Local Open Scope string_scope.
Local Open Scope float_scope.

Definition photo : Details.param := Details.PStr "file:///cache/Camera/photo.jpg".

Definition st0 : Details.screen :=
  {| Details.loading := true; Details.ordered := []; Details.currentIndex := 0;
     Details.showOthers := false; Details.active := 0 |}.

(** [{name: "Ficus", probability: 0.9, details: null, similar_images: []}] *)
Definition ficus : value :=
  VObj 10 [("name", VStr "Ficus"); ("probability", VNum 0.9); ("details", VNull);
           ("similar_images", VArr 11 [])].

Definition monstera : value :=
  VObj 12 [("name", VStr "Monstera"); ("probability", VNum 0.4);
           ("similar_images", VArr 13 [VObj 14 [("url", VStr "https://plant.id/img/1.jpg")];
                                        VObj 15 [("id", VStr "no-url")]])].

(** A probability that is text, not a number. *)
Definition rosa : value :=
  VObj 16 [("name", VStr "Rosa"); ("probability", VStr "high")].

Definition pothos : value :=
  VObj 17 [("name", VStr "Pothos"); ("probability", VNum 0.9)].

(** No probability at all. *)
Definition hedera : value := VObj 18 [("name", VStr "Hedera")].

Definition suggestions : list value := [monstera; ficus; rosa; pothos; hedera].

Definition wrap (l : list value) : value :=
  VObj 1 [("result", VObj 2 [("classification", VObj 3 [("suggestions", VArr 4 l)])])].

Definition wrap_is_plant (l : list value) : value :=
  VObj 1 [("result", VObj 2 [("is_plant", VObj 5
            [("classification", VObj 3 [("suggestions", VArr 4 l)])])])].

(** A response without any suggestion list. *)
Definition no_list : value := VObj 1 [("result", VObj 2 [])].

Definition created_tok1 : value := VObj 20 [("id", VStr "tok1")].

Definition answer (st : nat) (txt : string) (v : value) : settled response :=
  Fulfilled {| status := st; text := txt; json := Parsed v |}.

(** Scenario A: creation returns [{id: "tok1"}], retrieval returns the
    given list of suggestions. *)
Definition world_A (l : list value) : world :=
  {| readFile := fun _ => Fulfilled "QUJD";
     respond := fun _ r =>
       match r with
       | Create _ _ => answer 200 "{id:tok1}" created_tok1
       | Retrieve _ _ _ => answer 200 "{result:{...}}" (wrap l)
       end |}.

(** Scenario B: the raw image is refused with status 400, the prefixed one
    is accepted. *)
Definition world_B (l : list value) : world :=
  {| readFile := fun _ => Fulfilled "QUJD";
     respond := fun sent r =>
       match r, sent with
       | Create _ _, [] => answer 400 "{error:bad image}" VNull
       | Create _ _, _ => answer 200 "{id:tok1}" created_tok1
       | Retrieve _ _ _, _ => answer 200 "{result:{...}}" (wrap l)
       end |}.

(** A gateway fails with status 500 and quotes an upstream error in the
    body. *)
Definition world_500 (l : list value) : world :=
  {| readFile := fun _ => Fulfilled "QUJD";
     respond := fun sent r =>
       match r, sent with
       | Create _ _, [] => answer 500 "upstream said: Create 400" VNull
       | Create _ _, _ => answer 200 "{id:tok1}" created_tok1
       | Retrieve _ _ _, _ => answer 200 "{result:{...}}" (wrap l)
       end |}.

Definition moderate_range : Details.detail :=
  {| Details.common_names := []; Details.wiki_description := None;
     Details.edible_parts := [];
     Details.watering := Some {| Details.min := None; Details.max := Some 0.2 |};
     Details.url := None |}.

End Samples.

(** * Part 5: properties *)

Import JS.
Local Open Scope string_scope.
Local Open Scope list_scope.
Local Open Scope Z_scope.

(** ** Binary64 arithmetic

    Comparison of numbers is comparison of their exact values, and the
    sign of a computed difference is the sign of the exact difference:
    rounding never turns a non-zero difference into zero. *)

Lemma prec_val : prec = 53. Proof. reflexivity. Qed.
Lemma emax_val : emax = 1024. Proof. reflexivity. Qed.
Lemma emin_val : emin = -1074. Proof. reflexivity. Qed.

Ltac flia :=
  pose proof prec_val; pose proof emax_val; pose proof emin_val; lia.

Lemma digits2_pos_bounds (m : positive) :
  2 ^ (Zpos (digits2_pos m) - 1) <= Zpos m < 2 ^ Zpos (digits2_pos m).
Proof.
  induction m as [m IH | m IH |]; simpl digits2_pos.
  - rewrite Pos2Z.inj_succ.
    replace (Z.succ (Zpos (digits2_pos m)) - 1) with (Z.succ (Zpos (digits2_pos m) - 1)) by lia.
    rewrite !Z.pow_succ_r by lia. lia.
  - rewrite Pos2Z.inj_succ.
    replace (Z.succ (Zpos (digits2_pos m)) - 1) with (Z.succ (Zpos (digits2_pos m) - 1)) by lia.
    rewrite !Z.pow_succ_r by lia. lia.
  - simpl. lia.
Qed.

Lemma canonical_emin m e :
  canonical_mantissa prec emax m e = true ->
  emin <= e /\ Zpos (digits2_pos m) <= prec /\
  (emin < e -> Zpos (digits2_pos m) = prec).
Proof.
  unfold canonical_mantissa, fexp. intros H%Z.eqb_eq.
  flia.
Qed.

Lemma bounded_range m e :
  bounded prec emax m e = true ->
  emin <= e <= emax - prec /\ 0 < Zpos m * 2 ^ (e - emin) < 2 ^ (emax - emin).
Proof.
  unfold bounded. intros [Hc He%Z.leb_le]%andb_prop.
  destruct (canonical_emin _ _ Hc) as (Hm & Hd & _).
  pose proof (digits2_pos_bounds m) as [_ Hlt].
  split; [flia|]. split.
  - apply Z.mul_pos_pos; [lia | apply Z.pow_pos_nonneg; flia].
  - apply Z.lt_le_trans with (2 ^ prec * 2 ^ (e - emin)).
    + apply Z.mul_lt_mono_pos_r; [apply Z.pow_pos_nonneg; flia|].
      apply Z.lt_le_trans with (1 := Hlt). apply Z.pow_le_mono_r; flia.
    + rewrite <- Z.pow_add_r by flia.
      apply Z.pow_le_mono_r; flia.
Qed.

(** On canonical mantissas the lexicographic comparison of (exponent,
    mantissa) is the comparison of the values. *)
Lemma lex_compare m1 e1 m2 e2 :
  bounded prec emax m1 e1 = true -> bounded prec emax m2 e2 = true ->
  match e1 ?= e2 with
  | Lt => Lt
  | Gt => Gt
  | Eq => Pos.compare_cont Eq m1 m2
  end = (Zpos m1 * 2 ^ (e1 - emin) ?= Zpos m2 * 2 ^ (e2 - emin)).
Proof.
  intros [Hc1 _]%andb_prop [Hc2 _]%andb_prop.
  destruct (canonical_emin _ _ Hc1) as (Hm1 & Hd1 & Hn1).
  destruct (canonical_emin _ _ Hc2) as (Hm2 & Hd2 & Hn2).
  pose proof (digits2_pos_bounds m1) as [Hlo1 Hhi1].
  pose proof (digits2_pos_bounds m2) as [Hlo2 Hhi2].
  assert (Hstep : forall ma ea mb eb,
             emin <= ea -> ea < eb ->
             Zpos ma < 2 ^ prec -> 2 ^ (prec - 1) <= Zpos mb ->
             Zpos ma * 2 ^ (ea - emin) < Zpos mb * 2 ^ (eb - emin)).
  { intros ma ea mb eb Ha Hab Hma Hmb.
    replace (eb - emin) with ((eb - ea) + (ea - emin)) by lia.
    rewrite Z.pow_add_r by lia. rewrite Z.mul_assoc.
    apply Z.mul_lt_mono_pos_r; [apply Z.pow_pos_nonneg; flia|].
    apply Z.lt_le_trans with (1 := Hma).
    apply Z.le_trans with (2 ^ (prec - 1) * 2 ^ (eb - ea)).
    - rewrite <- Z.pow_add_r by flia.
      apply Z.pow_le_mono_r; flia.
    - apply Z.mul_le_mono_nonneg_r; [apply Z.pow_nonneg; lia | exact Hmb]. }
  destruct (Z.compare_spec e1 e2) as [-> | Hlt | Hgt].
  - assert (Hc : 0 < 2 ^ (e2 - emin)) by (apply Z.pow_pos_nonneg; flia).
    change (Pos.compare_cont Eq m1 m2) with (Zpos m1 ?= Zpos m2).
    destruct (Z.compare_spec (Zpos m1) (Zpos m2)) as [E | L | G]; symmetry.
    + apply Z.compare_eq_iff. now rewrite E.
    + apply Z.compare_lt_iff. now apply Z.mul_lt_mono_pos_r.
    + apply Z.compare_gt_iff. now apply Z.mul_lt_mono_pos_r.
  - symmetry. apply Z.compare_lt_iff. apply Hstep; try lia.
    + apply Z.lt_le_trans with (1 := Hhi1). apply Z.pow_le_mono_r; flia.
    + rewrite <- Hn2 by lia. exact Hlo2.
  - symmetry. apply Z.compare_gt_iff. apply Hstep; try lia.
    + apply Z.lt_le_trans with (1 := Hhi2). apply Z.pow_le_mono_r; flia.
    + rewrite <- Hn1 by lia. exact Hlo1.
Qed.

Lemma rank_compare a b :
  valid_binary a = true -> valid_binary b = true ->
  is_num a = true -> is_num b = true ->
  SFcompare a b = Some (rank a ?= rank b).
Proof.
  intros Va Vb Na Nb.
  assert (Hinf : 0 < 2 ^ (emax - emin)) by (apply Z.pow_pos_nonneg; flia).
  destruct a as [sa | sa | | sa ma ea], b as [sb | sb | | sb mb eb];
    try discriminate; simpl in Va, Vb; unfold rank, SFcompare.
  all: try (pose proof (bounded_range _ _ Va) as [_ Ra]).
  all: try (pose proof (bounded_range _ _ Vb) as [_ Rb]).
  all: try (destruct sa); try (destruct sb); unfold cond_Zopp; f_equal; symmetry.
  all: try (apply Z.compare_eq_iff; lia).
  all: try (apply Z.compare_lt_iff; lia).
  all: try (apply Z.compare_gt_iff; lia).
  - rewrite Z.compare_opp. rewrite <- (lex_compare mb eb ma ea) by assumption.
    rewrite (Z.compare_antisym ea eb), (Pos.compare_cont_antisym).
    destruct (ea ?= eb); reflexivity.
  - symmetry. apply lex_compare; assumption.
Qed.

(** ** Rounding never changes the sign of a non-zero exact result *)

Lemma shr_record_of_loc_m m l : shr_m (shr_record_of_loc m l) = m.
Proof. destruct l as [|[]]; reflexivity. Qed.

Lemma shr_1_m r : 0 <= shr_m r -> shr_m (shr_1 r) = shr_m r / 2.
Proof.
  destruct r as [m b s]; simpl. intros Hm.
  destruct m as [|[p|p|]|p]; cbn [shr_m]; try lia; try reflexivity.
  - apply Z.div_unique with 1; lia.
  - apply Z.div_unique with 0; lia.
Qed.

Lemma iter_pos_shr_1 p : forall r,
  0 <= shr_m r -> shr_m (iter_pos shr_1 p r) = shr_m r / 2 ^ Zpos p.
Proof.
  assert (Hpow : forall q, 0 < 2 ^ Zpos q) by (intros; apply Z.pow_pos_nonneg; lia).
  assert (Hnn : forall a q, 0 <= a -> 0 <= a / 2 ^ Zpos q)
    by (intros; apply Z.div_pos; auto).
  induction p as [p IH | p IH |]; intros r Hr; simpl iter_pos.
  - assert (H1 : 0 <= shr_m (shr_1 r)) by (rewrite shr_1_m by auto; apply Z.div_pos; lia).
    assert (H2 : 0 <= shr_m (iter_pos shr_1 p (shr_1 r))) by (rewrite IH by exact H1; auto).
    rewrite (IH _ H2), (IH _ H1), shr_1_m by auto.
    rewrite !Z.div_div by (try apply Hpow; lia).
    f_equal. rewrite <- Z.pow_add_r, <- Z.pow_succ_r by lia. f_equal. lia.
  - assert (H2 : 0 <= shr_m (iter_pos shr_1 p r)) by (rewrite IH by exact Hr; auto).
    rewrite (IH _ H2), (IH _ Hr).
    rewrite !Z.div_div by (try apply Hpow; lia).
    f_equal. rewrite <- Z.pow_add_r by lia. f_equal. lia.
  - rewrite shr_1_m by auto. reflexivity.
Qed.

Lemma shr_fexp_pos m e l :
  emin <= e ->
  0 < shr_m (fst (shr_fexp prec emax (Zpos m) e l)) /\
  emin <= snd (shr_fexp prec emax (Zpos m) e l).
Proof.
  intros He. unfold shr_fexp, shr, Zdigits2.
  pose proof (digits2_pos_bounds m) as [Hlo _].
  destruct (fexp prec emax (Zpos (digits2_pos m) + e) - e) as [|p|p] eqn:En;
    simpl fst; simpl snd; rewrite ?shr_record_of_loc_m; try (split; lia).
  unfold fexp in En. split; [|lia].
  rewrite iter_pos_shr_1 by (rewrite shr_record_of_loc_m; lia).
  rewrite shr_record_of_loc_m.
  apply Z.div_str_pos. split; [apply Z.pow_pos_nonneg; lia|].
  apply Z.le_trans with (2 := Hlo). apply Z.pow_le_mono_r; flia.
Qed.

Lemma binary_round_aux_sign s m e l :
  emin <= e -> has_sign s (binary_round_aux prec emax s (Zpos m) e l).
Proof.
  intros He. unfold binary_round_aux.
  destruct (shr_fexp_pos m e l He) as [Hm He'].
  destruct (shr_fexp prec emax (Zpos m) e l) as [r e'] eqn:E1. simpl in Hm, He'.
  assert (Hr : 0 < round_nearest_even (shr_m r) (loc_of_shr_record r)).
  { unfold round_nearest_even.
    destruct (loc_of_shr_record r) as [|[]]; try destruct (Z.even _); lia. }
  destruct (round_nearest_even (shr_m r) (loc_of_shr_record r)) as [|m1|m1];
    try lia.
  destruct (shr_fexp_pos m1 e' loc_Exact He') as [Hm2 _].
  destruct (shr_fexp prec emax (Zpos m1) e' loc_Exact) as [r2 e2]. simpl in Hm2.
  destruct (shr_m r2) as [|m2|m2]; try lia.
  destruct (e2 <=? emax - prec); reflexivity.
Qed.

Lemma binary_round_sign s m e :
  emin <= e -> has_sign s (binary_round prec emax s m e).
Proof.
  intros He. unfold binary_round, shl_align.
  destruct (fexp prec emax (Zpos (digits2_pos m) + e) - e) eqn:En;
    apply binary_round_aux_sign; try assumption.
  unfold fexp. lia.
Qed.

Lemma binary_normalize_sign d e sz :
  emin <= e ->
  match d ?= 0 with
  | Eq => binary_normalize prec emax d e sz = S754_zero sz
  | Lt => has_sign true (binary_normalize prec emax d e sz)
  | Gt => has_sign false (binary_normalize prec emax d e sz)
  end.
Proof.
  intros He. destruct d; simpl; auto using binary_round_sign.
Qed.

Lemma iter_xO m d : Zpos (Pos.iter xO m d) = Zpos m * 2 ^ Zpos d.
Proof.
  induction d as [|d IH] using Pos.peano_ind.
  - simpl. lia.
  - rewrite Pos.iter_succ, Pos2Z.inj_xO, IH, Pos2Z.inj_succ, Z.pow_succ_r by lia. lia.
Qed.

Lemma shl_align_val m e ez :
  ez <= e -> Zpos (fst (shl_align m e ez)) = Zpos m * 2 ^ (e - ez).
Proof.
  intros H. unfold shl_align.
  destruct (ez - e) as [|p|p] eqn:E; simpl fst; try lia.
  - replace (e - ez) with 0 by lia. lia.
  - rewrite iter_xO. f_equal. f_equal. lia.
Qed.

(** The sign of a computed difference is the sign of the exact one. *)
Lemma SFsub_sign b a :
  valid_binary a = true -> valid_binary b = true ->
  is_num a = true -> is_num b = true ->
  sign_matches (rank a ?= rank b) (SFsub prec emax b a).
Proof.
  intros Va Vb Na Nb.
  assert (Hinf : 0 < 2 ^ (emax - emin)) by (apply Z.pow_pos_nonneg; flia).
  destruct a as [sa | sa | | sa ma ea], b as [sb | sb | | sb mb eb];
    try discriminate; simpl in Va, Vb.
  all: try (pose proof (bounded_range _ _ Va) as [Ea Ra]).
  all: try (pose proof (bounded_range _ _ Vb) as [Eb Rb]).
  9: {
    unfold SFsub.
    set (ez := Z.min eb ea).
    assert (Hez : emin <= ez) by (unfold ez; lia).
    rewrite (shl_align_val mb eb ez), (shl_align_val ma ea ez) by (unfold ez; lia).
    set (d := cond_Zopp sb (Zpos mb * 2 ^ (eb - ez)) - cond_Zopp sa (Zpos ma * 2 ^ (ea - ez))).
    assert (Hd : (d ?= 0) = CompOpp (rank (S754_finite sa ma ea) ?= rank (S754_finite sb mb eb))).
    { rewrite <- Z.compare_antisym. unfold rank.
      assert (Hs : 0 < 2 ^ (ez - emin)) by (apply Z.pow_pos_nonneg; lia).
      assert (Hb : cond_Zopp sb (Zpos mb * 2 ^ (eb - emin))
                   = cond_Zopp sb (Zpos mb * 2 ^ (eb - ez)) * 2 ^ (ez - emin)).
      { replace (eb - emin) with ((eb - ez) + (ez - emin)) by lia.
        rewrite Z.pow_add_r by (unfold ez; lia). destruct sb; unfold cond_Zopp; ring. }
      assert (Ha : cond_Zopp sa (Zpos ma * 2 ^ (ea - emin))
                   = cond_Zopp sa (Zpos ma * 2 ^ (ea - ez)) * 2 ^ (ez - emin)).
      { replace (ea - emin) with ((ea - ez) + (ez - emin)) by lia.
        rewrite Z.pow_add_r by (unfold ez; lia). destruct sa; unfold cond_Zopp; ring. }
      rewrite Hb, Ha. fold d.
      set (x := cond_Zopp sb (Zpos mb * 2 ^ (eb - ez))) in *.
      set (y := cond_Zopp sa (Zpos ma * 2 ^ (ea - ez))) in *.
      destruct (Z.compare_spec d 0) as [E|L|G]; symmetry.
      - apply Z.compare_eq_iff. f_equal. lia.
      - apply Z.compare_lt_iff. apply Z.mul_lt_mono_pos_r; lia.
      - apply Z.compare_gt_iff. apply Z.mul_lt_mono_pos_r; lia. }
    pose proof (binary_normalize_sign d ez false Hez) as Hn.
    rewrite Hd in Hn.
    destruct (rank (S754_finite sa ma ea) ?= rank (S754_finite sb mb eb));
      simpl in Hn; unfold sign_matches; try assumption.
    rewrite Hn. exact I. }
  all: unfold rank; try (destruct sa); try (destruct sb); unfold cond_Zopp.
  all: try match goal with
           | |- sign_matches ?c _ =>
             first [ replace c with Eq by (symmetry; apply Z.compare_eq_iff; lia)
                   | replace c with Lt by (symmetry; apply Z.compare_lt_iff; lia)
                   | replace c with Gt by (symmetry; apply Z.compare_gt_iff; lia) ]
           end.
  all: simpl; auto.
Qed.

Lemma SFcompare_num a b :
  valid_binary a = true -> valid_binary b = true ->
  SFcompare a b =
  if is_num a && is_num b then Some (rank a ?= rank b) else None.
Proof.
  intros Va Vb.
  destruct (is_num a) eqn:Na, (is_num b) eqn:Nb; simpl.
  - now apply rank_compare.
  - destruct a, b; try discriminate; reflexivity.
  - destruct a, b; try discriminate; reflexivity.
  - destruct a, b; try discriminate; reflexivity.
Qed.

Lemma is_nan_num x : is_nan x = negb (is_num (Prim2SF x)).
Proof.
  unfold is_nan. rewrite eqb_spec. unfold SFeqb.
  rewrite SFcompare_num by apply Prim2SF_valid.
  destruct (is_num (Prim2SF x)); simpl; [rewrite Z.compare_refl|]; reflexivity.
Qed.

Lemma ltb_fval x y :
  (x <? y)%float = is_num (Prim2SF x) && is_num (Prim2SF y) && (fval x <? fval y).
Proof.
  rewrite ltb_spec. unfold SFltb, fval, Z.ltb.
  rewrite SFcompare_num by apply Prim2SF_valid.
  destruct (is_num (Prim2SF x) && is_num (Prim2SF y)); simpl; [|reflexivity].
  destruct (rank (Prim2SF x) ?= rank (Prim2SF y)); reflexivity.
Qed.

Lemma leb_fval x y :
  (x <=? y)%float = is_num (Prim2SF x) && is_num (Prim2SF y) && (fval x <=? fval y).
Proof.
  rewrite leb_spec. unfold SFleb, fval, Z.leb.
  rewrite SFcompare_num by apply Prim2SF_valid.
  destruct (is_num (Prim2SF x) && is_num (Prim2SF y)); simpl; [|reflexivity].
  destruct (rank (Prim2SF x) ?= rank (Prim2SF y)); reflexivity.
Qed.

Lemma eqb_fval x y :
  (x =? y)%float = is_num (Prim2SF x) && is_num (Prim2SF y) && (fval x =? fval y).
Proof.
  rewrite eqb_spec. unfold SFeqb, fval, Z.eqb.
  rewrite SFcompare_num by apply Prim2SF_valid.
  destruct (is_num (Prim2SF x) && is_num (Prim2SF y)); simpl; [|reflexivity].
  rewrite <- Z.eqb_compare.
  destruct (rank (Prim2SF x) ?= rank (Prim2SF y)) eqn:E; try reflexivity.
Qed.

Lemma Prim2SF_zero : Prim2SF 0%float = S754_zero false.
Proof. reflexivity. Qed.

Lemma Prim2SF_zero' : Prim2SF zero = S754_zero false.
Proof. reflexivity. Qed.

(** [0 < y - x] exactly when [x < y]. *)
Lemma sub_pos x y : (0 <? y - x)%float = (x <? y)%float.
Proof.
  rewrite (ltb_fval x y), ltb_spec, sub_spec, Prim2SF_zero.
  pose proof (Prim2SF_valid x) as Vx. pose proof (Prim2SF_valid y) as Vy.
  unfold fval, SF64sub.
  destruct (is_num (Prim2SF x)) eqn:Nx, (is_num (Prim2SF y)) eqn:Ny; simpl.
  - pose proof (SFsub_sign (Prim2SF y) (Prim2SF x) Vx Vy Nx Ny) as H.
    unfold Z.ltb.
    destruct (rank (Prim2SF x) ?= rank (Prim2SF y)); simpl in H;
      destruct (SFsub prec emax (Prim2SF y) (Prim2SF x)) as [s|s| |s m e];
      simpl in H; try contradiction; subst; reflexivity.
  - destruct (Prim2SF x), (Prim2SF y); try discriminate; reflexivity.
  - destruct (Prim2SF x), (Prim2SF y); try discriminate; reflexivity.
  - destruct (Prim2SF x), (Prim2SF y); try discriminate; reflexivity.
Qed.

(** [y - x < 0] exactly when [y < x]. *)
Lemma sub_neg x y : (y - x <? 0)%float = (y <? x)%float.
Proof.
  rewrite (ltb_fval y x), ltb_spec, sub_spec, Prim2SF_zero.
  pose proof (Prim2SF_valid x) as Vx. pose proof (Prim2SF_valid y) as Vy.
  unfold fval, SF64sub.
  destruct (is_num (Prim2SF x)) eqn:Nx, (is_num (Prim2SF y)) eqn:Ny; simpl.
  - pose proof (SFsub_sign (Prim2SF y) (Prim2SF x) Vx Vy Nx Ny) as H.
    unfold Z.ltb. rewrite (Z.compare_antisym (rank (Prim2SF x))).
    destruct (rank (Prim2SF x) ?= rank (Prim2SF y)); simpl in H;
      destruct (SFsub prec emax (Prim2SF y) (Prim2SF x)) as [s|s| |s m e];
      simpl in H; try contradiction; subst; reflexivity.
  - destruct (Prim2SF x), (Prim2SF y); try discriminate; reflexivity.
  - destruct (Prim2SF x), (Prim2SF y); try discriminate; reflexivity.
  - destruct (Prim2SF x), (Prim2SF y); try discriminate; reflexivity.
Qed.

Lemma ltb_nan_r x y : is_nan y = true -> (x <? y)%float = false.
Proof.
  rewrite is_nan_num, ltb_fval. intros H%negb_true_iff. rewrite H.
  now rewrite andb_false_r.
Qed.

(** Reading a comparator's value through [SortCompare] does not change
    whether it is positive. *)
Lemma SortCompare_pos {A} (f : A -> A -> float) x y :
  (0 <? SortCompare f x y)%float = (0 <? f x y)%float.
Proof.
  unfold SortCompare. destruct (is_nan (f x y)) eqn:E; [|reflexivity].
  rewrite (ltb_nan_r 0%float (f x y) E). reflexivity.
Qed.

Lemma SortCompare_neg {A} (f : A -> A -> float) x y :
  (SortCompare f x y <? 0)%float = (f x y <? 0)%float.
Proof.
  unfold SortCompare. destruct (is_nan (f x y)) eqn:E; [|reflexivity].
  rewrite is_nan_num in E. apply negb_true_iff in E.
  rewrite (ltb_fval (f x y)), E. reflexivity.
Qed.

(** ** [x || 0] on numbers *)

Lemma num_or_num c : is_num (Prim2SF (num_or c 0)) = true.
Proof.
  unfold num_or, num_truthy. rewrite is_nan_num.
  destruct (is_num (Prim2SF c)) eqn:E; simpl.
  - destruct (is_zero c); simpl; [reflexivity | exact E].
  - reflexivity.
Qed.

Lemma num_or_fval c : is_nan c = false -> fval (num_or c 0) = fval c.
Proof.
  intros Hn. unfold num_or, num_truthy. rewrite Hn. simpl.
  destruct (is_zero c) eqn:E; simpl; [|reflexivity].
  unfold is_zero in E. rewrite eqb_fval in E.
  apply andb_prop in E as [_ E%Z.eqb_eq]. symmetry. exact E.
Qed.

Lemma num_or_nan c : is_nan c = true -> num_or c 0 = 0%float.
Proof. intros H. unfold num_or, num_truthy. now rewrite H. Qed.

Lemma is_nan_false_num c : is_nan c = false <-> is_num (Prim2SF c) = true.
Proof. rewrite is_nan_num. destruct (is_num _); simpl; intuition congruence. Qed.

(** A positive length is truthy. *)
Lemma of_nat_truthy n : num_truthy (of_nat n) = negb (Nat.eqb n 0).
Proof.
  destruct n as [|n]; [reflexivity|].
  simpl negb. unfold num_truthy, is_zero.
  rewrite is_nan_num, eqb_fval. unfold fval, of_nat. rewrite Prim2SF_zero'.
  set (z := Z.min (Z.of_nat (S n)) 9007199254740991).
  assert (Hz : 0 < z < 9007199254740992) by (unfold z; lia).
  pose proof (Prim2SF_valid (of_uint63 (Uint63.of_Z z))) as V.
  rewrite of_uint63_spec in *.
  assert (Hphi : Uint63Axioms.to_Z (Uint63.of_Z z) = z).
  { rewrite Uint63.of_Z_spec. apply Z.mod_small.
    change Uint63.wB with 9223372036854775808. lia. }
  rewrite Hphi in *.
  pose proof (binary_normalize_sign z 0 false) as H.
  replace (z ?= 0) with Gt in H by (symmetry; apply Z.compare_gt_iff; lia).
  specialize (H ltac:(flia)).
  destruct (binary_normalize prec emax z 0 false) as [s|s| |s m e];
    simpl in H; try contradiction; subst; cbn [is_num negb orb andb rank cond_Zopp].
  - reflexivity.
  - simpl in V. apply bounded_range in V as [_ V].
    destruct (_ =? 0) eqn:E; [apply Z.eqb_eq in E; lia | reflexivity].
Qed.

(** ** Insertion by a comparator that compares exact keys

    [rho] gives every element an integer key; the comparator is positive
    exactly when the first argument has the smaller key, as a descending
    comparator is. *)
Section InsertionSort.
Context {A : Type} (comparefn : A -> A -> float) (rho : A -> Z).
Hypothesis comparefn_rho :
  forall x y, (0 <? SortCompare comparefn x y)%float = (rho x <? rho y).

Lemma insert_perm x l : Permutation (insert comparefn x l) (x :: l).
Proof.
  induction l as [|y l IH]; simpl; [reflexivity|].
  destruct (0 <? SortCompare comparefn x y)%float; [|reflexivity].
  rewrite IH. apply perm_swap.
Qed.

Lemma sort_perm l : Permutation (sort comparefn l) l.
Proof.
  induction l as [|x l IH]; simpl; [reflexivity|].
  rewrite insert_perm. now constructor.
Qed.

Lemma insert_sorted x l :
  StronglySorted (fun a b => rho b <= rho a) l ->
  StronglySorted (fun a b => rho b <= rho a) (insert comparefn x l).
Proof.
  induction 1 as [|y l Hs IH Hy]; simpl.
  - repeat constructor.
  - rewrite comparefn_rho. destruct (Z.ltb_spec (rho x) (rho y)) as [Hlt|Hge].
    + constructor; [exact IH|].
      apply Forall_forall. intros z Hz.
      apply (Permutation_in _ (insert_perm x l)) in Hz as [<- | Hz]; [lia|].
      rewrite Forall_forall in Hy. now apply Hy.
    + constructor; [now constructor|].
      constructor; [exact Hge|].
      apply Forall_impl with (2 := Hy). intros; lia.
Qed.

Lemma sort_sorted l : StronglySorted (fun a b => rho b <= rho a) (sort comparefn l).
Proof.
  induction l as [|x l IH]; simpl; [constructor | now apply insert_sorted].
Qed.


End InsertionSort.

Lemma StronglySorted_weaken {A} (R R' : A -> A -> Prop) l :
  (forall a b, R a b -> R' a b) -> StronglySorted R l -> StronglySorted R' l.
Proof.
  intros H. induction 1; constructor; auto.
  eapply Forall_impl; [|eassumption]. auto.
Qed.

Lemma StronglySorted_map {A B} (f : A -> B) (R : B -> B -> Prop) l :
  StronglySorted (fun a b => R (f a) (f b)) l -> StronglySorted R (map f l).
Proof.
  induction 1 as [|a l Hs IH Ha]; simpl; constructor; auto.
  apply Forall_map. exact Ha.
Qed.

(** ** The effect-free steps *)

Lemma bind_Ret_inv {A B} (m : io A) (k : A -> io B) b :
  bind m k = Ret b -> exists a, m = Ret a /\ k a = Ret b.
Proof. destruct m; simpl; try discriminate. eauto. Qed.

Lemma mapM_Ret_length {A B} (f : A -> io B) l r :
  mapM f l = Ret r -> List.length r = List.length l.
Proof.
  revert r. induction l as [|x l IH]; simpl; intros r H.
  - now inversion H.
  - apply bind_Ret_inv in H as (y & _ & H).
    apply bind_Ret_inv in H as (ys & Hys & H).
    inversion H; subst. simpl. f_equal. now apply IH.
Qed.

(** ** The sort of [details.jsx] *)

Import Details.

Lemma byConfidence_rho x y :
  (0 <? SortCompare byConfidence x y)%float = (fval (effective x) <? fval (effective y)).
Proof.
  rewrite SortCompare_pos. unfold byConfidence. rewrite sub_pos, ltb_fval.
  unfold effective. now rewrite !num_or_num.
Qed.

(** The comparator orders the candidates consistently, by the integer
    key [fval (effective x)]: it is negative, zero or positive as the
    key of its first argument is greater than, equal to or smaller than
    the key of the second.  So [sort] has one possible result. *)
Lemma byConfidence_consistent x y :
  (SortCompare byConfidence x y <? 0)%float = (fval (effective y) <? fval (effective x)) /\
  (0 <? SortCompare byConfidence x y)%float = (fval (effective x) <? fval (effective y)).
Proof.
  split; [|apply byConfidence_rho].
  rewrite SortCompare_neg. unfold byConfidence. rewrite sub_neg, ltb_fval.
  unfold effective. now rewrite !num_or_num.
Qed.

Lemma effective_fval x :
  is_nan (confidence x) = false -> fval (effective x) = fval (confidence x).
Proof. apply num_or_fval. Qed.





Lemma heroFallback_spec uri top rest :
  exists top',
    heroFallback uri (top :: rest) = Ret (top' :: rest) /\
    sameButGallery top' top /\
    gallery top' =
      if match gallery top with [] => true | _ => false end && param_truthy uri
      then [VStr (String_ uri)] else gallery top.
Proof.
  unfold heroFallback.
  destruct (match gallery top with [] => true | _ => false end && param_truthy uri);
    eexists; split; try reflexivity; split; try reflexivity; repeat split.
Qed.

(** What [showSuggestions] does with a non-empty array of suggestions
    that [map] accepts. *)
Lemma showSuggestions_array uri st full ref items raw :
  locateSuggestions full = VArr ref items -> items <> [] ->
  mapM mapSuggestion items = Ret raw ->
  exists top rest top',
    sort byConfidence raw = top :: rest /\
    heroFallback uri (top :: rest) = Ret (top' :: rest) /\
    showSuggestions uri st full =
      Ret {| loading := false; ordered := top' :: rest; currentIndex := 0;
             showOthers := showOthers st; active := active st |}.
Proof.
  intros Hloc Hne Hraw. unfold showSuggestions. rewrite Hloc.
  cbn [get]. simpl String.eqb. cbn [truthy]. rewrite of_nat_truthy.
  destruct items as [|i items]; [contradiction|]. simpl negb. cbv iota.
  rewrite Hraw. cbn [bind].
  destruct (sort byConfidence raw) as [|top rest] eqn:Es.
  - apply mapM_Ret_length in Hraw.
    pose proof (Permutation_length (sort_perm byConfidence raw)) as Hlen.
    rewrite Es, Hraw in Hlen. discriminate.
  - destruct (heroFallback_spec uri top rest) as (top' & Hh & _).
    exists top, rest, top'. rewrite Hh. cbn [bind]. auto.
Qed.

Lemma sorted_effective raw :
  StronglySorted (fun a b => fval (effective b) <= fval (effective a))
    (sort byConfidence raw).
Proof. apply sort_sorted. exact byConfidence_rho. Qed.

Lemma sort_confidence_noninc raw :
  StronglySorted (fun a b => (a <? b)%float = false)
    (map confidence (sort byConfidence raw)).
Proof.
  apply StronglySorted_map.
  apply StronglySorted_weaken with (2 := sorted_effective raw). intros a b Hab.
  rewrite ltb_fval.
  destruct (is_num (Prim2SF (confidence a))) eqn:Na; [|reflexivity].
  destruct (is_num (Prim2SF (confidence b))) eqn:Nb; [|reflexivity].
  rewrite !effective_fval in Hab by now apply is_nan_false_num.
  simpl. apply Z.ltb_ge. exact Hab.
Qed.

Lemma heroFallback_confidence uri l l' :
  heroFallback uri l = Ret l' -> map confidence l' = map confidence l.
Proof.
  unfold heroFallback. destruct l as [|top rest]; [discriminate|].
  destruct (_ && _); intros H; inversion H; reflexivity.
Qed.



Example sort_sample :
  map (fun c => (label c, confidence c))
    (sort byConfidence
       [ {| label := VStr "a"; sci := VNull; confidence := 0.4; details := VNull; gallery := [] |};
         {| label := VStr "b"; sci := VNull; confidence := 0.9; details := VNull; gallery := [] |};
         {| label := VStr "c"; sci := VNull; confidence := nan; details := VNull; gallery := [] |};
         {| label := VStr "d"; sci := VNull; confidence := 0.9; details := VNull; gallery := [] |};
         {| label := VStr "e"; sci := VNull; confidence := 0; details := VNull; gallery := [] |} ])
  = [(VStr "b", 0.9%float); (VStr "d", 0.9%float); (VStr "a", 0.4%float);
     (VStr "c", nan); (VStr "e", 0%float)].
Proof. reflexivity. Qed.

(** ** The hero image *)

(** C7.  When the top candidate of the sorted list has an empty gallery and
    a photo reference was supplied, the state that [showSuggestions]
    returns has that candidate first with the gallery
    [[String(uri)]] and every other field unchanged, followed by the
    other candidates exactly as sorted. *)
Theorem hero_fallback_gallery uri st full ref items raw top rest :
  locateSuggestions full = VArr ref items ->
  mapM mapSuggestion items = Ret raw ->
  sort byConfidence raw = top :: rest ->
  gallery top = [] ->
  param_truthy uri = true ->
  showSuggestions uri st full =
    Ret {| loading := false;
           ordered :=
             {| label := label top; sci := sci top; confidence := confidence top;
                details := details top; gallery := [VStr (String_ uri)] |} :: rest;
           currentIndex := 0; showOthers := showOthers st; active := active st |}.
Proof.
  intros Hloc Hraw Es Hg Hu.
  assert (Hne : items <> []).
  { intros ->. simpl in Hraw. inversion Hraw; subst. discriminate. }
  destruct (showSuggestions_array uri st full ref items raw Hloc Hne Hraw)
    as (top0 & rest0 & top' & Es' & Hh & Hshow).
  rewrite Es in Es'. inversion Es'; subst top0 rest0.
  rewrite Hshow. unfold heroFallback in Hh. rewrite Hg, Hu in Hh. simpl in Hh.
  inversion Hh. reflexivity.
Qed.

Lemma hero_fallback_gallery_witness :
  locateSuggestions (Samples.wrap [Samples.ficus]) = VArr 4 [Samples.ficus] /\
  param_truthy Samples.photo = true /\
  showSuggestions Samples.photo Samples.st0 (Samples.wrap [Samples.ficus]) =
    Ret {| loading := false;
           ordered :=
             [ {| label := VStr "Ficus"; sci := VStr "Ficus"; confidence := 0.9;
                  details := VNull;
                  gallery := [VStr "file:///cache/Camera/photo.jpg"] |} ];
           currentIndex := 0; showOthers := false; active := 0 |}.
Proof.
  split; [reflexivity|]. split; [reflexivity|].
  apply (hero_fallback_gallery Samples.photo Samples.st0 (Samples.wrap [Samples.ficus])
           4 [Samples.ficus]
           [ {| label := VStr "Ficus"; sci := VStr "Ficus"; confidence := 0.9;
                details := VNull; gallery := [] |} ]
           {| label := VStr "Ficus"; sci := VStr "Ficus"; confidence := 0.9;
              details := VNull; gallery := [] |} []);
    reflexivity.
Defined.

(** X23.  A top candidate that has images keeps them: the photo is put
    in only when the gallery is empty, and then the state shows the
    sorted candidates unchanged. *)
Lemma hero_kept uri st full ref items raw top rest :
  locateSuggestions full = VArr ref items ->
  mapM mapSuggestion items = Ret raw ->
  sort byConfidence raw = top :: rest ->
  gallery top <> [] ->
  showSuggestions uri st full =
    Ret {| loading := false; ordered := top :: rest; currentIndex := 0;
           showOthers := showOthers st; active := active st |}.
Proof.
  intros Hloc Hraw Es Hg.
  assert (Hne : items <> []).
  { intros ->. simpl in Hraw. inversion Hraw; subst. discriminate. }
  destruct (showSuggestions_array uri st full ref items raw Hloc Hne Hraw)
    as (top0 & rest0 & top' & Es' & Hh & Hshow).
  rewrite Es in Es'. inversion Es'; subst top0 rest0.
  rewrite Hshow. unfold heroFallback in Hh.
  destruct (gallery top); [contradiction|]. simpl in Hh. inversion Hh. reflexivity.
Qed.

(** ** Where the suggestions are looked for *)

Example locateSuggestions_order :
  locateSuggestions (Samples.wrap [Samples.ficus]) = VArr 4 [Samples.ficus] /\
  locateSuggestions (Samples.wrap_is_plant [Samples.ficus]) = VArr 4 [Samples.ficus] /\
  locateSuggestions Samples.no_list = VArr 0 [] /\
  locateSuggestions
    (VObj 1 [("result", VObj 2
       [ ("classification", VObj 3 [("suggestions", VArr 4 [])]);
         ("is_plant", VObj 5
            [("classification", VObj 6 [("suggestions", VArr 7 [Samples.ficus])])]) ])])
    = VArr 4 [].
Proof. repeat split; reflexivity. Qed.

(** ** No matches *)

(** C4.  When neither location holds a suggestion list, or the list found
    is empty, [showSuggestions] shows the alert "No matches" and returns
    the state with no candidate and index 0: the computation is fulfilled,
    nothing is thrown. *)
Theorem no_matches_is_not_an_error uri st full :
  (nullish (opt_get (opt_get (opt_get full "result") "classification") "suggestions") = true /\
   nullish (opt_get (opt_get (opt_get (opt_get full "result") "is_plant") "classification")
              "suggestions") = true) \/
  (exists ref, locateSuggestions full = VArr ref []) ->
  let empty := {| loading := false; ordered := []; currentIndex := 0;
                  showOthers := showOthers st; active := active st |} in
  showSuggestions uri st full =
    Alert "No matches" "Try a closer, well-lit photo of a single leaf/flower." (Ret empty) /\
  forall w sent,
    run w sent (showSuggestions uri st full) =
      ([Alerted "No matches" "Try a closer, well-lit photo of a single leaf/flower."],
       Fulfilled empty).
Proof.
  intros H empty.
  assert (Hloc : exists ref, locateSuggestions full = VArr ref []).
  { destruct H as [[H1 H2] | H]; [|exact H].
    exists 0%nat. unfold locateSuggestions, coalesce. now rewrite H1, H2. }
  destruct Hloc as [ref Hloc].
  assert (E : showSuggestions uri st full =
    Alert "No matches" "Try a closer, well-lit photo of a single leaf/flower." (Ret empty)).
  { unfold showSuggestions. rewrite Hloc. reflexivity. }
  split; [exact E|]. intros w sent. rewrite E. reflexivity.
Qed.

Lemma no_matches_is_not_an_error_witness :
  (exists ref, locateSuggestions (Samples.wrap []) = VArr ref []) /\
  showSuggestions Samples.photo Samples.st0 (Samples.wrap []) =
    Alert "No matches" "Try a closer, well-lit photo of a single leaf/flower."
      (Ret {| loading := false; ordered := []; currentIndex := 0;
              showOthers := false; active := 0 |}).
Proof.
  split; [exists 4%nat; reflexivity|].
  apply (no_matches_is_not_an_error Samples.photo Samples.st0 (Samples.wrap [])).
  right. exists 4%nat. reflexivity.
Defined.

(** ** [promote] *)

Lemma findIndex_first {A} (p : A -> bool) l k c :
  nth_error l k = Some c -> p c = true ->
  (forall j c', (j < k)%nat -> nth_error l j = Some c' -> p c' = false) ->
  findIndex p l = Z.of_nat k.
Proof.
  revert k. induction l as [|x l IH]; intros k Hk Hp Hfirst.
  - destruct k; discriminate.
  - destruct k as [|k]; simpl in Hk.
    + inversion Hk; subst. simpl. now rewrite Hp.
    + simpl findIndex. rewrite (Hfirst 0%nat x) by (simpl; auto; lia).
      rewrite (IH k Hk Hp).
      * destruct (Z.leb_spec 0 (Z.of_nat k)); lia.
      * intros j c' Hj Hn. apply (Hfirst (S j) c'); [lia | exact Hn].
Qed.

Lemma findIndex_none {A} (p : A -> bool) l :
  (forall c, In c l -> p c = false) -> findIndex p l = -1.
Proof.
  induction l as [|x l IH]; intros H; [reflexivity|].
  simpl. rewrite (H x) by now left.
  rewrite IH by (intros; apply H; now right). reflexivity.
Qed.

(** An element that satisfies [p] gives [findIndex] a first position. *)
Lemma findIndex_some {A} (p : A -> bool) l :
  (exists x, In x l /\ p x = true) ->
  exists k c,
    nth_error l k = Some c /\ p c = true /\
    (forall j c', (j < k)%nat -> nth_error l j = Some c' -> p c' = false).
Proof.
  induction l as [|y l IH]; intros (x & Hin & Hx); [contradiction|].
  destruct (p y) eqn:Hy.
  - exists 0%nat, y. repeat split; auto. intros j c' Hj. lia.
  - destruct IH as (k & c & Hk & Hc & Hfirst).
    { destruct Hin as [-> | Hin]; [congruence | eauto]. }
    exists (S k), c. repeat split; auto.
    intros [|j] c' Hj Hn; simpl in Hn.
    + inversion Hn; subst. exact Hy.
    + apply (Hfirst j c'); [lia | exact Hn].
Qed.

(** C5.  When position [k] holds the first candidate whose label is
    [===] to the label of the promoted option, [promote] sets
    [currentIndex] to [k] and leaves the list of candidates as it is. *)
Theorem promote_selects_first_match option st k c :
  nth_error (ordered st) k = Some c ->
  strict_eq (label c) (label option) = true ->
  (forall j c', (j < k)%nat -> nth_error (ordered st) j = Some c' ->
                strict_eq (label c') (label option) = false) ->
  currentIndex (promote option st) = Z.of_nat k /\
  ordered (promote option st) = ordered st.
Proof.
  intros Hk Hc Hfirst. unfold promote.
  rewrite (findIndex_first (fun x => strict_eq (label x) (label option)) _ k c Hk Hc Hfirst).
  destruct (Z.leb_spec 0 (Z.of_nat k)); [split; reflexivity | lia].
Qed.

Lemma promote_selects_first_match_witness :
  let st := {| loading := false; ordered := mock; currentIndex := 0;
               showOthers := true; active := 1 |} in
  let option := {| label := VStr "Crassula perforata"; sci := VNull; confidence := 0;
                   details := VNull; gallery := [] |} in
  currentIndex (promote option st) = 2 /\ ordered (promote option st) = mock.
Proof.
  intros st option.
  eapply (promote_selects_first_match option st 2).
  - reflexivity.
  - reflexivity.
  - intros j c' Hj Hn.
    destruct j as [|[|j]]; simpl in Hn; try lia; inversion Hn; reflexivity.
Defined.

(** A label that occurs among the candidates is always found: after
    [promote] the current candidate carries it. *)
Lemma promote_occurring_label option st :
  (exists c, In c (ordered st) /\ strict_eq (label c) (label option) = true) ->
  exists k c,
    currentIndex (promote option st) = Z.of_nat k /\
    nth_error (ordered (promote option st)) k = Some c /\
    strict_eq (label c) (label option) = true.
Proof.
  intros H.
  destruct (findIndex_some (fun x => strict_eq (label x) (label option)) _ H)
    as (k & c & Hk & Hc & Hfirst).
  exists k, c. unfold promote.
  rewrite (findIndex_first (fun x => strict_eq (label x) (label option)) _ k c Hk Hc Hfirst).
  destruct (Z.leb_spec 0 (Z.of_nat k)); [|lia].
  repeat split; assumption.
Qed.

(** C6.  When no candidate has a label [===] to the label of the promoted
    option, [promote] returns the state it was given: same candidates,
    same [currentIndex], and nothing else touched. *)
Theorem promote_unknown_label_is_noop option st :
  (forall c, In c (ordered st) -> strict_eq (label c) (label option) = false) ->
  promote option st = st.
Proof.
  intros H. unfold promote.
  now rewrite (findIndex_none (fun x => strict_eq (label x) (label option)) _ H).
Qed.

Lemma promote_unknown_label_is_noop_witness :
  let st := {| loading := false; ordered := mock; currentIndex := 1;
               showOthers := true; active := 1 |} in
  let option := {| label := VStr "Ficus"; sci := VNull; confidence := 0;
                   details := VNull; gallery := [] |} in
  promote option st = st.
Proof.
  intros st option. apply (promote_unknown_label_is_noop option st).
  intros c Hc. simpl in Hc.
  destruct Hc as [<- | [<- | [<- | []]]]; reflexivity.
Defined.

(** ** The care badge *)

Lemma leb_eqb_l a c b : (a =? c)%float = true -> (a <=? b)%float = (c <=? b)%float.
Proof.
  rewrite eqb_fval, !leb_fval.
  intros [[Na Nc]%andb_prop E%Z.eqb_eq]%andb_prop. now rewrite Na, Nc, E.
Qed.

Lemma ltb_not_leb x y : (x <? y)%float = true -> (y <=? x)%float = false.
Proof.
  rewrite ltb_fval, leb_fval.
  intros [[Nx Ny]%andb_prop L%Z.ltb_lt]%andb_prop. rewrite Nx, Ny. simpl.
  apply Z.leb_gt. exact L.
Qed.

Lemma ltb_trans x y z :
  (x <? y)%float = true -> (y <? z)%float = true -> (x <? z)%float = true.
Proof.
  rewrite !ltb_fval.
  intros [[Nx Ny]%andb_prop L1%Z.ltb_lt]%andb_prop [[_ Nz]%andb_prop L2%Z.ltb_lt]%andb_prop.
  rewrite Nx, Nz. simpl. apply Z.ltb_lt. lia.
Qed.

Lemma careBadge_watering d w :
  watering d = Some w ->
  careBadge (Some d) =
    if (wateringAvg w <=? 0.25)%float then "Easy Care"
    else if (wateringAvg w <=? 0.55)%float then "Moderate to Care"
    else "Thirsty".
Proof. intros H. unfold careBadge. now rewrite H. Qed.

(** C8.  Without a detail record or without a watering range the badge is
    "Moderate to Care".  With a range of average [avg] it is "Easy Care"
    when [avg <= 0.25], "Moderate to Care" when [0.25 < avg <= 0.55] and
    "Thirsty" when [0.55 < avg]; in particular an average of exactly 0.25
    gives "Easy Care", 0.26 and 0.55 give "Moderate to Care" and 0.56
    gives "Thirsty".  When both bounds are present the average is
    [(min + max) / 2]. *)
Theorem care_badge_thresholds :
  careBadge None = "Moderate to Care" /\
  (forall d, watering d = None -> careBadge (Some d) = "Moderate to Care") /\
  forall d w, watering d = Some w ->
    let avg := wateringAvg w in
    (forall a b, min w = Some a -> max w = Some b -> avg = ((a + b) / 2)%float) /\
    ((avg <=? 0.25)%float = true -> careBadge (Some d) = "Easy Care") /\
    ((0.25 <? avg)%float = true -> (avg <=? 0.55)%float = true ->
     careBadge (Some d) = "Moderate to Care") /\
    ((0.55 <? avg)%float = true -> careBadge (Some d) = "Thirsty") /\
    ((avg =? 0.25)%float = true -> careBadge (Some d) = "Easy Care") /\
    ((avg =? 0.26)%float = true -> careBadge (Some d) = "Moderate to Care") /\
    ((avg =? 0.55)%float = true -> careBadge (Some d) = "Moderate to Care") /\
    ((avg =? 0.56)%float = true -> careBadge (Some d) = "Thirsty").
Proof.
  split; [reflexivity|]. split.
  { intros d H. unfold careBadge. now rewrite H. }
  intros d w Hw avg. rewrite (careBadge_watering d w Hw). fold avg.
  split; [|repeat split].
  - intros a b Ha Hb. unfold avg, wateringAvg. now rewrite Ha, Hb.
  - intros H. now rewrite H.
  - intros H1 H2. now rewrite (ltb_not_leb _ _ H1), H2.
  - intros H.
    assert (H25 : (0.25 <? avg)%float = true)
      by (apply ltb_trans with (2 := H); reflexivity).
    now rewrite (ltb_not_leb _ _ H25), (ltb_not_leb _ _ H).
  - intros H. now rewrite (leb_eqb_l _ _ _ H).
  - intros H. now rewrite !(leb_eqb_l _ _ _ H).
  - intros H. now rewrite !(leb_eqb_l _ _ _ H).
  - intros H. now rewrite !(leb_eqb_l _ _ _ H).
Qed.

Lemma care_badge_thresholds_witness :
  let d := {| common_names := []; wiki_description := None; edible_parts := [];
              watering := Some {| min := Some 0.5%float; max := Some 0.625%float |}; url := None |} in
  (0.55 <? wateringAvg {| min := Some 0.5%float; max := Some 0.625%float |})%float = true /\
  careBadge (Some d) = "Thirsty".
Proof.
  intros d. split; [reflexivity|].
  destruct care_badge_thresholds as (_ & _ & H).
  destruct (H d {| min := Some 0.5%float; max := Some 0.625%float |} eq_refl)
    as (_ & _ & _ & Hthirsty & _).
  apply Hthirsty. reflexivity.
Defined.

(** C10.  A watering range that lacks a bound is not treated as absent:
    the missing bound counts as 0.5 in the average.  With only
    [max = 0.2] the average is 0.35 and the badge "Moderate to Care";
    with only [max = 0] the badge is "Easy Care" and with only
    [max = 0.9] it is "Thirsty", neither of which an absent range
    gives. *)
Theorem missing_bound_counts_as_half :
  (forall d w, watering d = Some w ->
     (forall b, min w = None -> max w = Some b ->
        wateringAvg w = ((0.5 + b) / 2)%float) /\
     (forall a, min w = Some a -> max w = None ->
        wateringAvg w = ((a + 0.5) / 2)%float) /\
     (min w = None -> max w = None -> wateringAvg w = 0.5%float) /\
     careBadge (Some d) =
       if (wateringAvg w <=? 0.25)%float then "Easy Care"
       else if (wateringAvg w <=? 0.55)%float then "Moderate to Care"
       else "Thirsty") /\
  wateringAvg {| min := None; max := Some 0.2%float |} = 0.35%float /\
  careBadge (Some Samples.moderate_range) = "Moderate to Care" /\
  careBadge (Some {| common_names := []; wiki_description := None; edible_parts := [];
                     watering := Some {| min := None; max := Some 0%float |}; url := None |})
    = "Easy Care" /\
  careBadge (Some {| common_names := []; wiki_description := None; edible_parts := [];
                     watering := Some {| min := None; max := Some 0.9%float |}; url := None |})
    = "Thirsty".
Proof.
  split; [|repeat split; reflexivity].
  intros d w Hw. repeat split.
  - intros b Ha Hb. unfold wateringAvg. now rewrite Ha, Hb.
  - intros a Ha Hb. unfold wateringAvg. now rewrite Ha, Hb.
  - intros Ha Hb. unfold wateringAvg. rewrite Ha, Hb. reflexivity.
  - apply careBadge_watering, Hw.
Qed.

Lemma missing_bound_counts_as_half_witness :
  watering Samples.moderate_range = Some {| min := None; max := Some 0.2%float |} /\
  wateringAvg {| min := None; max := Some 0.2%float |} = ((0.5 + 0.2) / 2)%float.
Proof.
  split; [reflexivity|].
  destruct missing_bound_counts_as_half as (H & _).
  destruct (H Samples.moderate_range {| min := None; max := Some 0.2%float |} eq_refl)
    as (Hmin & _).
  apply Hmin; reflexivity.
Defined.

(** ** The confidence of a candidate *)

Lemma mapSuggestion_Ret_inv s c :
  mapSuggestion s = Ret c ->
  exists n ref imgs,
    ToNumber (coalesce (opt_get s "probability") (VNum 0)) = Some n /\
    or_else (opt_get s "similar_images") (VArr 0 []) = VArr ref imgs /\
    c = {| label := or_else (opt_get s "name") (VStr "Unknown");
           sci := opt_get s "name";
           confidence := n;
           details := or_else (opt_get s "details") VNull;
           gallery := filter truthy (map (fun img => opt_get img "url") imgs) |}.
Proof.
  unfold mapSuggestion.
  destruct (ToNumber _) as [n|]; [|discriminate].
  destruct (or_else (opt_get s "similar_images") (VArr 0 [])); try discriminate.
  intros H. inversion H. eauto 6.
Qed.

Lemma mapSuggestion_confidence s c :
  mapSuggestion s = Ret c ->
  ToNumber (coalesce (opt_get s "probability") (VNum 0)) = Some (confidence c).
Proof.
  intros H. apply mapSuggestion_Ret_inv in H as (n & ref & imgs & Hn & _ & ->).
  exact Hn.
Qed.

(** The mapping of [details.jsx] returns exactly when the probability
    can be converted and the similar images are falsy or an array. *)
Lemma mapSuggestion_returns s :
  (exists c, mapSuggestion s = Ret c) <->
  convertible (coalesce (opt_get s "probability") (VNum 0)) = true /\
  exists ref imgs, or_else (opt_get s "similar_images") (VArr 0 []) = VArr ref imgs.
Proof.
  unfold mapSuggestion, ToNumber. split.
  - intros [c H].
    destruct (convertible _); [|discriminate]. split; [reflexivity|].
    destruct (or_else (opt_get s "similar_images") (VArr 0 [])); try discriminate.
    eauto.
  - intros [-> (ref & imgs & ->)]. eauto.
Qed.

Lemma effective_not_nan x : is_nan (effective x) = false.
Proof. apply is_nan_false_num, num_or_num. Qed.

(** C2, as the code has it.  The mapping of [details.jsx] returns a
    candidate exactly when the probability can be converted and the
    similar images can be mapped, and the confidence of the candidate is
    then [Number(probability ?? 0)]: exactly [+0] when the probability is
    missing ([undefined] or [null]), the number itself when it is a
    number, and for a text the number the text reads as, which is [NaN]
    when the text is no numeric literal: the mapping does not coerce it to
    0.  The comparator reads a confidence [c] as [c || 0], which is never
    [NaN] and is [+0] when [c] is [NaN].  In [result.jsx] too a missing
    probability gives exactly [+0] and a number gives itself. *)
Theorem confidence_is_Number_of_probability s :
  let p := opt_get s "probability" in
  ((exists c, mapSuggestion s = Ret c) <->
   convertible (coalesce p (VNum 0)) = true /\
   exists ref imgs, or_else (opt_get s "similar_images") (VArr 0 []) = VArr ref imgs) /\
  (forall c, mapSuggestion s = Ret c ->
     ToNumber (coalesce p (VNum 0)) = Some (confidence c) /\
     (nullish p = true -> confidence c = 0%float) /\
     (forall n, p = VNum n -> confidence c = n) /\
     (forall t, p = VStr t -> confidence c = StringToNumber t) /\
     is_nan (effective c) = false /\
     (is_nan (confidence c) = true -> effective c = 0%float)) /\
  (nullish p = true ->
   exists q, Result.mapSuggestion s = Ret q /\ Result.confidence q = 0%float) /\
  (forall n, p = VNum n ->
   exists q, Result.mapSuggestion s = Ret q /\ Result.confidence q = n).
Proof.
  intros p. split; [apply mapSuggestion_returns|]. split; [|split].
  - intros c H. pose proof (mapSuggestion_confidence s c H) as Hc. fold p in Hc.
    split; [exact Hc|]. repeat split.
    + intros Hn. unfold coalesce in Hc. rewrite Hn in Hc. now inversion Hc.
    + intros n Hn. rewrite Hn in Hc. now inversion Hc.
    + intros t Ht. rewrite Ht in Hc. now inversion Hc.
    + apply effective_not_nan.
    + apply num_or_nan.
  - intros Hn. unfold Result.mapSuggestion, coalesce. fold p. rewrite Hn.
    eexists. split; reflexivity.
  - intros n Hn. unfold Result.mapSuggestion. fold p. rewrite Hn.
    eexists. split; reflexivity.
Qed.

Lemma confidence_is_Number_of_probability_witness :
  mapSuggestion Samples.hedera =
    Ret {| label := VStr "Hedera"; sci := VStr "Hedera"; confidence := 0;
           details := VNull; gallery := [] |} /\
  nullish (opt_get Samples.hedera "probability") = true /\
  exists q, Result.mapSuggestion Samples.hedera = Ret q /\ Result.confidence q = 0%float.
Proof.
  split; [reflexivity|]. split; [reflexivity|].
  destruct (confidence_is_Number_of_probability Samples.hedera) as (_ & _ & H0 & _).
  apply H0. reflexivity.
Defined.

(** C2 fails as stated: a suggestion whose probability is the text
    ["high"] is mapped to a candidate whose confidence is [NaN], in both
    screens. *)
Lemma unparseable_probability_gives_NaN :
  opt_get Samples.rosa "probability" = VStr "high" /\
  (exists c, mapSuggestion Samples.rosa = Ret c /\ is_nan (confidence c) = true) /\
  (exists q, Result.mapSuggestion Samples.rosa = Ret q /\
             is_nan (Result.confidence q) = true) /\
  ~ (forall s c, mapSuggestion s = Ret c -> is_nan (confidence c) = false).
Proof.
  split; [reflexivity|]. split; [eexists; split; reflexivity|].
  split; [eexists; split; reflexivity|].
  intros H. specialize (H Samples.rosa _ eq_refl). discriminate H.
Qed.

(** A probability that holds an own [toString] entry cannot be converted:
    the mapping throws, and with it the whole identification. *)
Example unconvertible_probability_throws :
  let s := VObj 40 [("name", VStr "Rosa");
                    ("probability", VObj 41 [("toString", VStr "high")])] in
  mapSuggestion s = Throw cannot_convert /\
  Result.mapSuggestion s = Throw cannot_convert /\
  showSuggestions Samples.photo Samples.st0 (Samples.wrap [Samples.ficus; s]) =
    Throw cannot_convert.
Proof. repeat split; reflexivity. Qed.

(** ** The creation request and its retry *)

Lemma run_createIdentification w sent imgs :
  run w sent (createIdentification imgs) =
    ([Sent (Create imgs true)], createResult (respond w sent (Create imgs true))).
Proof.
  unfold createIdentification, createResult. simpl.
  destruct (respond w sent (Create imgs true)) as [res | e]; simpl; [|reflexivity].
  destruct (negb (ok res)); [reflexivity|].
  destruct (json res); reflexivity.
Qed.

(** The retry is decided by the text of the error message alone: a second
    request is sent exactly when the first attempt fails with a message
    that contains ["Create 400"], and whatever the second attempt ends
    with is the result. *)
Lemma run_createWithRetry w sent base64 :
  run w sent (createWithRetry base64) =
    let first := Create [base64] true in
    let second := Create [("data:image/jpeg;base64," ++ base64)%string] true in
    match createResult (respond w sent first) with
    | Fulfilled v => ([Sent first], Fulfilled v)
    | Rejected e =>
        if includes e "Create 400"
        then ([Sent first; Sent second], createResult (respond w (sent ++ [first]) second))
        else ([Sent first], Rejected e)
    end.
Proof.
  unfold createWithRetry, createIdentification at 1, createResult at 1.
  cbn [try_catch run].
  destruct (respond w sent (Create [base64] true)) as [res | e]; cbn [await bind try_catch].
  - destruct (negb (ok res)); cbn [try_catch].
    + destruct (includes _ "Create 400").
      * rewrite run_createIdentification. reflexivity.
      * reflexivity.
    + destruct (json res); cbn [try_catch]; [reflexivity|].
      destruct (includes _ "Create 400").
      * rewrite run_createIdentification. reflexivity.
      * reflexivity.
  - destruct (includes e "Create 400").
    + rewrite run_createIdentification. reflexivity.
    + reflexivity.
Qed.

Lemma includes_prefix s p : String.prefix p s = true -> includes s p = true.
Proof. intros H. destruct s; cbn [includes]; rewrite H; reflexivity. Qed.

(** X21.  A first attempt refused with status 400 is retried once, with
    the prefixed image, and no third request follows: what the second
    attempt ends with, success or failure, is the result. *)
Lemma status_400_is_retried w sent base64 res :
  respond w sent (Create [base64] true) = Fulfilled res -> status res = 400%nat ->
  run w sent (createWithRetry base64) =
    ([Sent (Create [base64] true); Sent (Create [("data:image/jpeg;base64," ++ base64)%string] true)],
     createResult (respond w (sent ++ [Create [base64] true])
                     (Create [("data:image/jpeg;base64," ++ base64)%string] true))).
Proof.
  intros Hr Hs. rewrite run_createWithRetry. cbv zeta. rewrite Hr.
  unfold createResult at 1. unfold ok. rewrite Hs. simpl negb. cbv iota.
  rewrite includes_prefix; reflexivity.
Qed.

(** The creation is attempted at most twice. *)
Lemma at_most_two_attempts w sent base64 :
  (List.length (filter is_create (requests (fst (run w sent (createWithRetry base64)))))
   <= 2)%nat.
Proof.
  rewrite run_createWithRetry. cbv zeta.
  destruct (createResult _) as [v | e]; simpl; [lia|].
  destruct (includes e "Create 400"); simpl; lia.
Qed.

(** C3 at the failing input: the gateway answers the raw image with status
    500 and a body that quotes ["Create 400"].  The status is not 400, yet
    the screen sends the creation request a second time, with the
    prefixed image, and goes on with its answer. *)
Theorem retry_on_status_500_with_quoted_text :
  respond (Samples.world_500 [Samples.ficus]) [] (Create ["QUJD"] true) =
    Samples.answer 500 "upstream said: Create 400" VNull /\
  requests (fst (run (Samples.world_500 [Samples.ficus]) []
                   (identify false Samples.photo Samples.st0))) =
    [ Create ["QUJD"] true;
      Create ["data:image/jpeg;base64,QUJD"] true;
      Retrieve (VStr "tok1") detail_fields "en" ] /\
  requests (fst (run (Samples.world_500 [Samples.ficus]) []
                   (Result.identifyPlant "file:///cache/Camera/photo.jpg"))) =
    [ Create ["QUJD"] true;
      Create ["data:image/jpeg;base64,QUJD"] true;
      Retrieve (VStr "tok1") Result.detail_fields "da" ].
Proof. repeat split; reflexivity. Qed.

(** ** The retrieval request *)


Lemma run_retrieveIdentification_requests w sent token :
  requests (fst (run w sent (retrieveIdentification token))) =
    (if convertible token then [Retrieve token detail_fields "en"] else []) /\
  requests (fst (run w sent (Result.retrieveIdentification token))) =
    (if convertible token then [Retrieve token Result.detail_fields "da"] else []).
Proof.
  unfold retrieveIdentification, Result.retrieveIdentification.
  destruct (convertible token); cbn [negb]; [|split; reflexivity]. cbn [run].
  destruct (respond w sent (Retrieve token detail_fields "en")) as [res | e];
  destruct (respond w sent (Retrieve token Result.detail_fields "da")) as [res' | e'];
    cbn [await bind];
    repeat match goal with
           | |- context [negb (ok ?r)] => destruct (negb (ok r))
           | |- context [json ?r] => destruct (json r)
           end; split; reflexivity.
Qed.

(** ** Which failures are retried *)

(** A match of ["Create 400"] cannot start inside a text without ["C"]. *)
Lemma includes_skip d rest :
  forallb (fun c => negb (Ascii.eqb c "C")) (list_ascii_of_string d) = true ->
  includes (d ++ rest)%string "Create 400" = includes rest "Create 400".
Proof.
  induction d as [|c d IH]; [reflexivity|]. simpl list_ascii_of_string.
  cbn [forallb]. intros [Hc Hd]%andb_prop.
  change ((String c d ++ rest)%string) with (String c (d ++ rest)%string).
  cbn [includes]. rewrite (IH Hd).
  replace (String.prefix "Create 400" (String c (d ++ rest)%string)) with false;
    [reflexivity|].
  cbn [String.prefix]. destruct (ascii_dec "C" c) as [<- | Hne]; [discriminate Hc|].
  reflexivity.
Qed.

Lemma string_app_assoc (a b c : string) : ((a ++ b) ++ c = a ++ (b ++ c))%string.
Proof. induction a as [|x a IH]; simpl; [reflexivity | now rewrite IH]. Qed.

Lemma string_app_length (a b : string) :
  String.length (a ++ b)%string = (String.length a + String.length b)%nat.
Proof. induction a as [|x a IH]; simpl; [reflexivity | now rewrite IH]. Qed.

Lemma status_texts :
  forallb (fun st =>
    forallb (fun c => negb (Ascii.eqb c "C")) (list_ascii_of_string (show_nat st)) &&
    (1 <=? String.length (show_nat st))%nat &&
    (Nat.eqb st 400 || negb (String.prefix "400" (show_nat st ++ ": ")%string)))
    (seq 0 1000) = true.
Proof. vm_compute. reflexivity. Qed.

Lemma prefix_app_l p s t :
  String.prefix p (s ++ t)%string = true ->
  (String.length p <= String.length s)%nat -> String.prefix p s = true.
Proof.
  revert s. induction p as [|a p IH]; intros s H Hl; [destruct s; reflexivity|].
  destruct s as [|b s]; [simpl in Hl; lia|].
  simpl in *. destruct (ascii_dec a b); [|discriminate].
  apply IH; [exact H | lia].
Qed.

(** X22.  A failure with a status other than 400 whose body does not
    quote ["Create 400"] is not retried: its error is thrown after the
    one request. *)
Lemma other_status_is_not_retried w sent base64 res :
  respond w sent (Create [base64] true) = Fulfilled res ->
  ok res = false -> (status res < 1000)%nat -> status res <> 400%nat ->
  includes (text res) "Create 400" = false ->
  run w sent (createWithRetry base64) =
    ([Sent (Create [base64] true)],
     Rejected ("Create " ++ show_nat (status res) ++ ": " ++ text res)%string).
Proof.
  intros Hr Hok Hlt Hne Htxt.
  rewrite run_createWithRetry. cbv zeta. rewrite Hr.
  unfold createResult at 1. rewrite Hok. simpl negb. cbv iota.
  pose proof status_texts as Hall. rewrite forallb_forall in Hall.
  assert (Hin : In (status res) (seq 0 1000)) by (apply in_seq; lia).
  apply Hall in Hin. apply andb_prop in Hin as [Hin Hpre].
  apply andb_prop in Hin as [HnoC Hlen]. apply Nat.leb_le in Hlen.
  apply Nat.eqb_neq in Hne. rewrite Hne in Hpre. simpl in Hpre.
  apply negb_true_iff in Hpre.
  replace (includes ("Create " ++ show_nat (status res) ++ ": " ++ text res)%string
             "Create 400") with false; [reflexivity|].
  symmetry.
  change ("Create " ++ show_nat (status res) ++ ": " ++ text res)%string
    with (String "C" ("reate " ++ (show_nat (status res) ++ ": " ++ text res))%string).
  cbn [includes].
  apply orb_false_iff. split.
  - change (String.prefix "Create 400"
              (String "C" ("reate " ++ (show_nat (status res) ++ ": " ++ text res))%string))
      with (String.prefix "400" (show_nat (status res) ++ ": " ++ text res)%string).
    destruct (String.prefix "400" (show_nat (status res) ++ ": " ++ text res)%string) eqn:E;
      [|reflexivity].
    rewrite <- string_app_assoc in E. apply prefix_app_l in E.
    + congruence.
    + rewrite string_app_length. simpl. lia.
  - rewrite (includes_skip "reate "%string) by reflexivity.
    rewrite includes_skip by exact HnoC.
    rewrite (includes_skip ": "%string) by reflexivity.
    exact Htxt.
Qed.

(** ** Running sequences of steps *)

Lemma requests_app tr tr' : requests (tr ++ tr') = requests tr ++ requests tr'.
Proof.
  induction tr as [|[] tr IH]; simpl; rewrite ?IH; reflexivity.
Qed.

Lemma run_bind {A B} w (m : io A) (k : A -> io B) : forall sent,
  run w sent (bind m k) =
    match run w sent m with
    | (tr, Fulfilled a) =>
        let '(tr', out) := run w (sent ++ requests tr) (k a) in (tr ++ tr', out)
    | (tr, Rejected e) => (tr, Rejected e)
    end.
Proof.
  induction m as [a | e | u k' IH | r k' IH | t msg m IH | ms m IH];
    intros sent; cbn [bind run].
  - rewrite app_nil_r. destruct (run w sent (k a)); reflexivity.
  - reflexivity.
  - rewrite IH. destruct (run w sent (k' (readFile w u))) as [tr [a | e]]; [|reflexivity].
    cbn [requests]. destruct (run w (sent ++ requests tr) (k a)); reflexivity.
  - rewrite IH.
    destruct (run w (sent ++ [r]) (k' (respond w sent r))) as [tr [a | e]]; [|reflexivity].
    cbn [requests]. rewrite <- app_assoc. simpl app.
    destruct (run w (sent ++ r :: requests tr) (k a)); reflexivity.
  - rewrite IH. destruct (run w sent m) as [tr [a | e]]; [|reflexivity].
    cbn [requests]. destruct (run w (sent ++ requests tr) (k a)); reflexivity.
  - rewrite IH. destruct (run w sent m) as [tr [a | e]]; [|reflexivity].
    cbn [requests]. destruct (run w (sent ++ requests tr) (k a)); reflexivity.
Qed.

Lemma pure_bind {A B} (m : io A) (k : A -> io B) :
  pure m -> (forall a, pure (k a)) -> pure (bind m k).
Proof. intros [[a ->] | [e ->]] Hk; simpl; [apply Hk | right; eauto]. Qed.

Lemma pure_run {A} w sent (m : io A) : pure m -> fst (run w sent m) = [].
Proof. intros [[a ->] | [e ->]]; reflexivity. Qed.

Lemma pure_mapSuggestion s : pure (mapSuggestion s).
Proof.
  unfold mapSuggestion. destruct (ToNumber _); [|right; eauto].
  destruct (or_else _ _); try (right; eauto; fail). left; eauto.
Qed.


Lemma pure_mapM {A B} (f : A -> io B) l : (forall x, pure (f x)) -> pure (mapM f l).
Proof.
  intros Hf. induction l as [|x l IH]; simpl; [left; eauto|].
  apply pure_bind; [apply Hf|]. intros y.
  apply pure_bind; [exact IH|]. intros ys. left; eauto.
Qed.

Lemma pure_heroFallback uri l : pure (heroFallback uri l).
Proof.
  unfold heroFallback. destruct l; [right; eauto|].
  destruct (_ && _); left; eauto.
Qed.

(** [showSuggestions] sends nothing. *)
Lemma showSuggestions_requests w sent uri st full :
  requests (fst (run w sent (showSuggestions uri st full))) = [].
Proof.
  unfold showSuggestions.
  destruct (negb (truthy (get (locateSuggestions full) "length"))); [reflexivity|].
  destruct (locateSuggestions full); try reflexivity.
  rewrite pure_run; [reflexivity|].
  apply pure_bind; [apply pure_mapM, pure_mapSuggestion|]. intros raw.
  apply pure_bind; [apply pure_heroFallback|]. intros l. left; eauto.
Qed.

Lemma requests_run_bind {A B} w sent (m : io A) (k : A -> io B) :
  requests (fst (run w sent (bind m k))) =
    requests (fst (run w sent m)) ++
    match snd (run w sent m) with
    | Fulfilled a => requests (fst (run w (sent ++ requests (fst (run w sent m))) (k a)))
    | Rejected _ => []
    end.
Proof.
  rewrite run_bind. destruct (run w sent m) as [tr [a | e]]; simpl.
  - destruct (run w (sent ++ requests tr) (k a)) as [tr' out]. simpl.
    apply requests_app.
  - now rewrite app_nil_r.
Qed.

Lemma requests_run_read {A} w sent u (k : settled string -> io A) :
  requests (fst (run w sent (ReadAsString u k))) =
    requests (fst (run w sent (k (readFile w u)))).
Proof. cbn [run]. destruct (run w sent (k (readFile w u))); reflexivity. Qed.

(** The steps of [identify] after the creation: the retrieval when there
    is a token, then [showSuggestions]. *)
Lemma requests_after_creation w sent uri st created :
  let token := or_else (opt_get created "id") (opt_get created "access_token") in
  truthy token = true ->
  requests (fst (run w sent
    (bind (if truthy token then retrieveIdentification token else Ret created)
       (fun full => showSuggestions uri st full)))) =
  if convertible token then [Retrieve token detail_fields "en"] else [].
Proof.
  intros token Ht. rewrite Ht, requests_run_bind.
  destruct (run_retrieveIdentification_requests w sent token) as [-> _].
  destruct (snd _); [rewrite showSuggestions_requests|]; apply app_nil_r.
Qed.





(** A token that is an object with an own [toString] entry: the address
    of the retrieval cannot be built, and both screens stop after the
    creation. *)
Example unwritable_token_sends_no_retrieval :
  let w := {| readFile := fun _ => Fulfilled "QUJD";
              respond := fun _ _ =>
                Samples.answer 200 "{id:{toString:1}}"
                  (VObj 20 [("id", VObj 21 [("toString", VNum 1)])]) |} in
  run w [] (identify false Samples.photo Samples.st0) =
    ([Read "file:///cache/Camera/photo.jpg"; Sent (Create ["QUJD"] true)],
     Rejected cannot_convert) /\
  run w [] (Result.identifyPlant "file:///cache/Camera/photo.jpg") =
    ([Read "file:///cache/Camera/photo.jpg"; Sent (Create ["QUJD"] true)],
     Rejected cannot_convert).
Proof. split; reflexivity. Qed.

(** ** The three scenarios of the specification, run end to end *)

(** Scenario A: one suggestion without images; the photo becomes its
    gallery. *)
Example scenario_A :
  run (Samples.world_A [Samples.ficus]) [] (identify false Samples.photo Samples.st0) =
    ([ Read "file:///cache/Camera/photo.jpg";
       Sent (Create ["QUJD"] true);
       Sent (Retrieve (VStr "tok1") detail_fields "en") ],
     Fulfilled
       {| loading := false;
          ordered :=
            [ {| label := VStr "Ficus"; sci := VStr "Ficus"; confidence := 0.9;
                 details := VNull;
                 gallery := [VStr "file:///cache/Camera/photo.jpg"] |} ];
          currentIndex := 0; showOthers := false; active := 0 |}).
Proof. reflexivity. Qed.

(** Scenario B: status 400, then the same outcome after one retry. *)
Example scenario_B :
  requests (fst (run (Samples.world_B [Samples.ficus]) []
                   (identify false Samples.photo Samples.st0))) =
    [ Create ["QUJD"] true;
      Create ["data:image/jpeg;base64,QUJD"] true;
      Retrieve (VStr "tok1") detail_fields "en" ] /\
  snd (run (Samples.world_B [Samples.ficus]) [] (identify false Samples.photo Samples.st0)) =
  snd (run (Samples.world_A [Samples.ficus]) [] (identify false Samples.photo Samples.st0)).
Proof. split; reflexivity. Qed.

(** Scenario C: no suggestion; the load ends without the failure alert. *)
Example scenario_C :
  run (Samples.world_A []) [] (onLoad false Samples.photo Samples.st0) =
    ([ Read "file:///cache/Camera/photo.jpg";
       Sent (Create ["QUJD"] true);
       Sent (Retrieve (VStr "tok1") detail_fields "en");
       Alerted "No matches" "Try a closer, well-lit photo of a single leaf/flower." ],
     Fulfilled {| loading := false; ordered := []; currentIndex := 0;
                  showOthers := false; active := 0 |}).
Proof. reflexivity. Qed.

(** As shipped, with [USE_FAKE_RESULTS] on, the screen sends nothing and
    shows the three fixed candidates, which are in order. *)
Example shipped_screen_shows_mock w :
  run w [] (identify USE_FAKE_RESULTS Samples.photo Samples.st0) =
    ([Waited 500],
     Fulfilled {| loading := false; ordered := mock; currentIndex := 0;
                  showOthers := false; active := 0 |}) /\
  sort byConfidence mock = mock.
Proof. split; reflexivity. Qed.

(** ** From [showSuggestions] to [identify] *)

(** Every state that [showSuggestions] returns lists its candidates in
    non-increasing order of confidence. *)
Lemma showSuggestions_fulfilled_sorted w sent uri st full tr st' :
  run w sent (showSuggestions uri st full) = (tr, Fulfilled st') ->
  StronglySorted (fun a b => (a <? b)%float = false) (map confidence (ordered st')).
Proof.
  unfold showSuggestions.
  destruct (negb (truthy (get (locateSuggestions full) "length"))).
  { cbn [run]. intros H. inversion H. constructor. }
  destruct (locateSuggestions full) as [| | | | |ref items|];
    try (cbn [run]; intros H; discriminate H).
  destruct (pure_mapM mapSuggestion items pure_mapSuggestion) as [[raw ->] | [e ->]];
    [|cbn [bind run]; intros H; discriminate H].
  cbn [bind].
  destruct (pure_heroFallback uri (sort byConfidence raw)) as [[l Eh] | [e Eh]];
    rewrite Eh; [|cbn [bind run]; intros H; discriminate H].
  cbn [bind run]. intros H. inversion H. cbn [ordered].
  rewrite (heroFallback_confidence _ _ _ Eh). apply sort_confidence_noninc.
Qed.

(** Every state that the live [identify] returns came out of
    [showSuggestions], so its candidates are in non-increasing order of
    confidence. *)
Lemma identify_fulfilled_sorted w uri st tr st' :
  run w [] (identify false uri st) = (tr, Fulfilled st') ->
  StronglySorted (fun a b => (a <? b)%float = false) (map confidence (ordered st')).
Proof.
  unfold identify.
  destruct (negb (param_truthy uri) || negb (startsWith (String_ uri) "file://"));
    [discriminate|].
  cbn [run]. destruct (readFile w (String_ uri)) as [base64 | e]; [|discriminate].
  cbn [await bind]. rewrite run_bind.
  destruct (run w [] (createWithRetry base64)) as [tr1 [created | e]]; [|discriminate].
  rewrite run_bind.
  destruct (run w ([] ++ requests tr1) _) as [tr2 [full | e]]; [|discriminate].
  destruct (run w _ (showSuggestions uri st full)) as [tr3 out] eqn:E3.
  intros H. inversion H; subst.
  eapply showSuggestions_fulfilled_sorted. exact E3.
Qed.

(** Over a whole run of the live [identify] the creation request is sent
    at most twice: once raw and, after a failure whose message contains
    ["Create 400"], once more with the prefix. *)
Lemma identify_creates_at_most_twice w uri st :
  (List.length (filter is_create (requests (fst (run w [] (identify false uri st)))))
   <= 2)%nat.
Proof.
  unfold identify.
  destruct (negb (param_truthy uri) || negb (startsWith (String_ uri) "file://"));
    [simpl; lia|].
  rewrite requests_run_read.
  destruct (readFile w (String_ uri)) as [base64 | e]; [|simpl; lia].
  cbn [await bind]. rewrite requests_run_bind, filter_app, length_app.
  pose proof (at_most_two_attempts w [] base64) as Hc.
  destruct (snd (run w [] (createWithRetry base64))) as [created | e];
    [|cbn [filter List.length]; lia].
  pose proof (requests_after_creation w ([] ++ requests (fst (run w [] (createWithRetry base64))))
                uri st created) as Hreq.
  cbv zeta in Hreq.
  set (token := or_else (opt_get created "id") (opt_get created "access_token")) in *.
  destruct (truthy token).
  - rewrite Hreq by reflexivity.
    destruct (convertible token); cbn [filter is_create List.length]; lia.
  - cbn [bind]. rewrite showSuggestions_requests. cbn [filter List.length]. lia.
Qed.

(** * Part 6: further properties of the two screens *)

(** ** Catching *)

Lemma run_try_catch {A} w (m : io A) (h : string -> io A) : forall sent,
  run w sent (try_catch m h) =
    match run w sent m with
    | (tr, Fulfilled a) => (tr, Fulfilled a)
    | (tr, Rejected e) =>
        let '(tr', out) := run w (sent ++ requests tr) (h e) in (tr ++ tr', out)
    end.
Proof.
  induction m as [a | e | u k' IH | r k' IH | t msg m IH | ms m IH];
    intros sent; cbn [try_catch run].
  - reflexivity.
  - rewrite app_nil_r. destruct (run w sent (h e)); reflexivity.
  - rewrite IH. destruct (run w sent (k' (readFile w u))) as [tr [a | e]]; [reflexivity|].
    cbn [requests]. destruct (run w (sent ++ requests tr) (h e)); reflexivity.
  - rewrite IH.
    destruct (run w (sent ++ [r]) (k' (respond w sent r))) as [tr [a | e]]; [reflexivity|].
    cbn [requests]. rewrite <- app_assoc. simpl app.
    destruct (run w (sent ++ r :: requests tr) (h e)); reflexivity.
  - rewrite IH. destruct (run w sent m) as [tr [a | e]]; [reflexivity|].
    cbn [requests]. destruct (run w (sent ++ requests tr) (h e)); reflexivity.
  - rewrite IH. destruct (run w sent m) as [tr [a | e]]; [reflexivity|].
    cbn [requests]. destruct (run w (sent ++ requests tr) (h e)); reflexivity.
Qed.

Lemma slice0_length s n : (String.length (slice0 s n) <= n)%nat.
Proof.
  unfold slice0. revert s. induction n as [|n IH]; intros s.
  - destruct s; simpl; lia.
  - destruct s as [|c s]; simpl; [lia|]. specialize (IH s). lia.
Qed.

Lemma slice0_prefix s n : String.prefix (slice0 s n) s = true.
Proof.
  unfold slice0. revert s. induction n as [|n IH]; intros s.
  - destruct s; reflexivity.
  - destruct s as [|c s]; simpl; [reflexivity|].
    destruct (ascii_dec c c); [apply IH | congruence].
Qed.

Lemma slice0_length_min s n :
  String.length (slice0 s n) = Nat.min n (String.length s).
Proof.
  unfold slice0. revert s. induction n as [|n IH]; intros s.
  - destruct s; reflexivity.
  - destruct s as [|c s]; simpl; [reflexivity|]. now rewrite IH.
Qed.

Lemma prefix_same_length p s :
  String.prefix p s = true -> String.length p = String.length s -> p = s.
Proof.
  revert s. induction p as [|c p IH]; intros [|d s]; simpl; try discriminate.
  - reflexivity.
  - destruct (ascii_dec c d) as [-> | _]; [|discriminate].
    intros Hp Hl. f_equal. apply IH; [exact Hp | lia].
Qed.

(** ** What [showSuggestions] and [identify] can return *)

Lemma mapM_Ret_map {A B C} (f : A -> io B) (g : B -> C) (g' : A -> C) l r :
  (forall x y, f x = Ret y -> g y = g' x) ->
  mapM f l = Ret r -> map g r = map g' l.
Proof.
  intros Hfg. revert r. induction l as [|x l IH]; simpl; intros r H.
  - now inversion H.
  - apply bind_Ret_inv in H as (y & Hy & H).
    apply bind_Ret_inv in H as (ys & Hys & H).
    inversion H; subst. simpl. f_equal; auto.
Qed.

Lemma mapM_Ret_Forall {A B} (f : A -> io B) (P : B -> Prop) l r :
  (forall x y, f x = Ret y -> P y) -> mapM f l = Ret r -> Forall P r.
Proof.
  intros Hf. revert r. induction l as [|x l IH]; simpl; intros r H.
  - inversion H. constructor.
  - apply bind_Ret_inv in H as (y & Hy & H).
    apply bind_Ret_inv in H as (ys & Hys & H).
    inversion H; subst. constructor; eauto.
Qed.

(** A state that [showSuggestions] returns is the empty one, after the
    alert, or holds the mapped, sorted candidates with the hero fallback
    applied. *)
Lemma showSuggestions_fulfilled_inv w sent uri st full tr st' :
  run w sent (showSuggestions uri st full) = (tr, Fulfilled st') ->
  (tr = [Alerted "No matches" "Try a closer, well-lit photo of a single leaf/flower."] /\
   negb (truthy (get (locateSuggestions full) "length")) = true /\
   st' = {| loading := false; ordered := []; currentIndex := 0;
            showOthers := showOthers st; active := active st |}) \/
  (exists ref items raw top rest top',
     tr = [] /\
     locateSuggestions full = VArr ref items /\ items <> [] /\
     mapM mapSuggestion items = Ret raw /\
     sort byConfidence raw = top :: rest /\
     heroFallback uri (top :: rest) = Ret (top' :: rest) /\
     st' = {| loading := false; ordered := top' :: rest; currentIndex := 0;
              showOthers := showOthers st; active := active st |}).
Proof.
  intros H.
  destruct (negb (truthy (get (locateSuggestions full) "length"))) eqn:El.
  - left. unfold showSuggestions in H. rewrite El in H. cbn [run] in H.
    inversion H. auto.
  - right. assert (H' := H). unfold showSuggestions in H. rewrite El in H.
    destruct (locateSuggestions full) as [| | | | |ref items|] eqn:Eloc;
      try (cbn [run] in H; discriminate H).
    assert (Hne : items <> []).
    { intros ->. cbn in El. discriminate El. }
    destruct (pure_mapM mapSuggestion items pure_mapSuggestion) as [[raw Hraw] | [e Hraw]];
      rewrite Hraw in H; [|cbn [bind run] in H; discriminate H].
    destruct (showSuggestions_array uri st full ref items raw Eloc Hne Hraw)
      as (top & rest & top' & Es & Hh & Hshow).
    rewrite Hshow in H'. cbn [run] in H'. inversion H'.
    exists ref, items, raw, top, rest, top'. repeat split; auto.
Qed.

(** A state that the live [identify] returns came out of
    [showSuggestions], for a photo reference that passed the check. *)
Lemma identify_fulfilled_inv w uri st tr st' :
  run w [] (identify false uri st) = (tr, Fulfilled st') ->
  param_truthy uri = true /\ startsWith (String_ uri) "file://" = true /\
  exists full sent tr', run w sent (showSuggestions uri st full) = (tr', Fulfilled st').
Proof.
  unfold identify.
  destruct (param_truthy uri) eqn:Hu; [|discriminate].
  destruct (startsWith (String_ uri) "file://") eqn:Hf; [|discriminate].
  cbn [negb orb run].
  destruct (readFile w (String_ uri)) as [base64 | e]; [|discriminate].
  cbn [await bind]. rewrite run_bind.
  destruct (run w [] (createWithRetry base64)) as [tr1 [created | e]]; [|discriminate].
  rewrite run_bind.
  destruct (run w ([] ++ requests tr1) _) as [tr2 [full | e]]; [|discriminate].
  destruct (run w _ (showSuggestions uri st full)) as [tr3 out] eqn:E3.
  intros H. inversion H; subst. repeat split; eauto.
Qed.

(** ** Loading the screen *)

Lemma identify_fulfilled_loading w sent fake uri st tr st' :
  run w sent (identify fake uri st) = (tr, Fulfilled st') ->
  Details.loading st' = false /\ currentIndex st' = 0.
Proof.
  unfold identify. destruct fake.
  { cbn [run]. intros H. inversion H. split; reflexivity. }
  destruct (negb (param_truthy uri) || negb (startsWith (String_ uri) "file://"));
    [discriminate|].
  cbn [run]. destruct (readFile w (String_ uri)) as [base64 | e]; [|discriminate].
  cbn [await bind]. rewrite run_bind.
  destruct (run w sent (createWithRetry base64)) as [tr1 [created | e]]; [|discriminate].
  rewrite run_bind.
  destruct (run w (sent ++ requests tr1) _) as [tr2 [full | e]]; [|discriminate].
  destruct (run w _ (showSuggestions uri st full)) as [tr3 out] eqn:E3.
  intros H. inversion H; subst.
  apply showSuggestions_fulfilled_inv in E3
    as [(_ & _ & ->) | (ref & items & raw & top & rest & top' & _ & _ & _ & _ & _ & _ & ->)];
    split; reflexivity.
Qed.

(** X1.  Loading the screen never ends in an exception, whatever the
    switch, the photo reference and the answers of the file system and of
    the service: the effect is fulfilled, and the state it leaves has
    [loading = false]. *)
Theorem onLoad_always_settles w sent fake uri st :
  exists tr st',
    run w sent (onLoad fake uri st) = (tr, Fulfilled st') /\
    Details.loading st' = false.
Proof.
  unfold onLoad. rewrite run_try_catch.
  destruct (run w sent (identify fake uri _)) as [tr [st' | e]] eqn:E.
  - exists tr, st'. split; [reflexivity|].
    now apply identify_fulfilled_loading in E.
  - cbn [run]. eexists _, _. split; reflexivity.
Qed.

(** X2.  When [identify] throws, loading shows exactly one more alert,
    "Identification failed", whose text is the first 300 characters of
    the error message ("Unknown error" for an empty message): it begins
    the message and stops after 300 characters or at the end of the
    message, whichever comes first, so a message of at most 300
    characters is shown whole.  The candidates and the current index are
    left as they were. *)
Theorem onLoad_reports_failure w sent fake uri st tr e :
  run w sent
    (identify fake uri
       {| loading := true; ordered := ordered st; currentIndex := currentIndex st;
          showOthers := showOthers st; active := active st |}) = (tr, Rejected e) ->
  let message := if (e =? EmptyString)%string then "Unknown error" else e in
  exists msg,
    run w sent (onLoad fake uri st) =
      (tr ++ [Alerted "Identification failed" msg],
       Fulfilled {| loading := false; ordered := ordered st;
                    currentIndex := currentIndex st;
                    showOthers := showOthers st; active := active st |}) /\
    String.prefix msg message = true /\
    String.length msg = Nat.min 300 (String.length message) /\
    ((String.length message <= 300)%nat -> msg = message).
Proof.
  intros H message. unfold onLoad. rewrite run_try_catch, H. cbn [run].
  fold message. exists (slice0 message 300).
  split; [reflexivity|]. split; [apply slice0_prefix|].
  split; [apply slice0_length_min|].
  intros Hl. apply prefix_same_length; [apply slice0_prefix|].
  rewrite slice0_length_min. lia.
Qed.

Lemma onLoad_reports_failure_witness :
  run (Samples.world_A []) []
    (identify false (PStr "content://photo")
       {| loading := true; ordered := []; currentIndex := 0;
          showOthers := false; active := 0 |}) = ([], Rejected "Invalid file URI") /\
  exists msg,
    run (Samples.world_A []) [] (onLoad false (PStr "content://photo") Samples.st0) =
      ([] ++ [Alerted "Identification failed" msg],
       Fulfilled {| loading := false; ordered := []; currentIndex := 0;
                    showOthers := false; active := 0 |}) /\
    String.prefix msg "Invalid file URI" = true /\
    String.length msg = Nat.min 300 (String.length "Invalid file URI") /\
    ((String.length "Invalid file URI" <= 300)%nat -> msg = "Invalid file URI").
Proof.
  split; [reflexivity|].
  apply (onLoad_reports_failure (Samples.world_A []) [] false (PStr "content://photo")
           Samples.st0 [] "Invalid file URI").
  reflexivity.
Defined.

(** X3.  Nothing is sent before a valid photo was read.  A photo
    reference that is missing, empty or does not start with [file://]
    ends the live [identify] with "Invalid file URI" before any effect,
    and a file that cannot be read ends it with the error of the read,
    after the read alone. *)
Theorem nothing_sent_without_photo w uri st :
  (param_truthy uri = false \/ startsWith (String_ uri) "file://" = false ->
   run w [] (identify false uri st) = ([], Rejected "Invalid file URI")) /\
  (forall e,
     param_truthy uri = true -> startsWith (String_ uri) "file://" = true ->
     readFile w (String_ uri) = Rejected e ->
     run w [] (identify false uri st) = ([Read (String_ uri)], Rejected e)).
Proof.
  split.
  - intros [H | H]; unfold identify; rewrite H; [reflexivity|].
    now rewrite orb_true_r.
  - intros e Hu Hf Hr. unfold identify. rewrite Hu, Hf. cbn [negb orb run].
    rewrite Hr. reflexivity.
Qed.

Lemma nothing_sent_without_photo_witness :
  startsWith (String_ (PStr "content://photo")) "file://" = false /\
  run (Samples.world_A [Samples.ficus]) [] (identify false (PStr "content://photo") Samples.st0)
    = ([], Rejected "Invalid file URI").
Proof.
  split; [reflexivity|].
  destruct (nothing_sent_without_photo (Samples.world_A [Samples.ficus])
              (PStr "content://photo") Samples.st0) as [H _].
  apply H. right. reflexivity.
Defined.

(** ** The requests of a run *)

Lemma createWithRetry_requests w sent base64 :
  let first := Create [base64] true in
  let second := Create [("data:image/jpeg;base64," ++ base64)%string] true in
  requests (fst (run w sent (createWithRetry base64))) = [first] \/
  requests (fst (run w sent (createWithRetry base64))) = [first; second].
Proof.
  rewrite run_createWithRetry. cbv zeta.
  destruct (createResult _) as [v | e]; [left; reflexivity|].
  destruct (includes e "Create 400"); [right | left]; reflexivity.
Qed.

(** X4.  The requests of a run of the live [identify] are, in this order:
    the creation with the raw image, possibly the creation with the
    prefixed image, and possibly one retrieval in English, for the token
    of the response that the creation ended with.  Nothing at all is sent
    exactly when the photo reference is refused or the file cannot be
    read; otherwise the raw creation comes first.  So at most three
    requests are sent, and no creation follows the retrieval. *)
Theorem identify_request_sequence w uri st :
  let reqs := requests (fst (run w [] (identify false uri st))) in
  (reqs = [] /\
   (param_truthy uri = false \/ startsWith (String_ uri) "file://" = false \/
    exists e, readFile w (String_ uri) = Rejected e)) \/
  (exists base64 retry retrieval,
     param_truthy uri = true /\ startsWith (String_ uri) "file://" = true /\
     readFile w (String_ uri) = Fulfilled base64 /\
     reqs = Create [base64] true :: retry ++ retrieval /\
     (retry = [] \/
      retry = [Create [("data:image/jpeg;base64," ++ base64)%string] true]) /\
     (retrieval = [] \/
      exists created token,
        snd (run w [] (createWithRetry base64)) = Fulfilled created /\
        token = or_else (opt_get created "id") (opt_get created "access_token") /\
        truthy token = true /\ convertible token = true /\
        retrieval = [Retrieve token detail_fields "en"]) /\
     (List.length reqs <= 3)%nat).
Proof.
  intros reqs. subst reqs. unfold identify.
  destruct (param_truthy uri) eqn:Hu; [|left; split; auto].
  destruct (startsWith (String_ uri) "file://") eqn:Hf; [|left; split; auto].
  cbn [negb orb]. rewrite requests_run_read.
  destruct (readFile w (String_ uri)) as [base64 | e] eqn:Er;
    [|left; split; [reflexivity | eauto]].
  right. cbn [await bind]. rewrite requests_run_bind.
  assert (Hret : exists retrieval,
    match snd (run w [] (createWithRetry base64)) with
    | Fulfilled a =>
        requests (fst (run w ([] ++ requests (fst (run w [] (createWithRetry base64))))
          (bind
             (if truthy (or_else (opt_get a "id") (opt_get a "access_token"))
              then retrieveIdentification
                     (or_else (opt_get a "id") (opt_get a "access_token"))
              else Ret a)
             (fun full => showSuggestions uri st full))))
    | Rejected _ => []
    end = retrieval /\
    (List.length retrieval <= 1)%nat /\
    (retrieval = [] \/
      exists created token,
        snd (run w [] (createWithRetry base64)) = Fulfilled created /\
        token = or_else (opt_get created "id") (opt_get created "access_token") /\
        truthy token = true /\ convertible token = true /\
        retrieval = [Retrieve token detail_fields "en"])).
  { destruct (snd (run w [] (createWithRetry base64))) as [created | e];
      [|exists []; cbn [List.length]; auto].
    pose proof (requests_after_creation w
                  ([] ++ requests (fst (run w [] (createWithRetry base64))))
                  uri st created) as Hreq.
    cbv zeta in Hreq.
    set (token := or_else (opt_get created "id") (opt_get created "access_token")) in *.
    destruct (truthy token) eqn:Ht.
    - rewrite Hreq by reflexivity.
      destruct (convertible token) eqn:Hcv; eexists; (split; [reflexivity|]);
        cbn [List.length]; (split; [lia|]); [right | left; reflexivity].
      exists created, token. auto.
    - cbn [bind]. rewrite showSuggestions_requests. exists []. cbn [List.length]. auto. }
  destruct Hret as (retrieval & -> & Hlen & Hretrieval).
  destruct (createWithRetry_requests w [] base64) as [-> | ->].
  - exists base64, [], retrieval. cbn [app List.length]. repeat split; auto. lia.
  - exists base64, [Create [("data:image/jpeg;base64," ++ base64)%string] true], retrieval.
    cbn [app List.length]. repeat split; auto. lia.
Qed.

(** X5.  A creation response without a token is used as the full
    response: no retrieval is sent and [showSuggestions] works on the
    creation response itself. *)
Theorem tokenless_response_is_used_directly w uri st base64 tr created :
  param_truthy uri = true -> startsWith (String_ uri) "file://" = true ->
  readFile w (String_ uri) = Fulfilled base64 ->
  run w [] (createWithRetry base64) = (tr, Fulfilled created) ->
  truthy (or_else (opt_get created "id") (opt_get created "access_token")) = false ->
  run w [] (identify false uri st) =
    (Read (String_ uri) :: tr ++ fst (run w (requests tr) (showSuggestions uri st created)),
     snd (run w (requests tr) (showSuggestions uri st created))) /\
  requests (fst (run w [] (identify false uri st))) = requests tr.
Proof.
  intros Hu Hf Hr Hc Ht.
  assert (E : run w [] (identify false uri st) =
    (Read (String_ uri) :: tr ++ fst (run w (requests tr) (showSuggestions uri st created)),
     snd (run w (requests tr) (showSuggestions uri st created)))).
  { unfold identify. rewrite Hu, Hf. cbn [negb orb run]. rewrite Hr.
    cbn [await bind]. rewrite run_bind, Hc. cbv zeta. rewrite Ht. cbn [bind app].
    destruct (run w (requests tr) (showSuggestions uri st created)); reflexivity. }
  split; [exact E|]. rewrite E. cbn [fst requests].
  rewrite requests_app, showSuggestions_requests. apply app_nil_r.
Qed.

Lemma tokenless_response_is_used_directly_witness :
  let w := {| readFile := fun _ => Fulfilled "QUJD";
              respond := fun _ _ => Samples.answer 200 "{result:{...}}"
                                      (Samples.wrap [Samples.ficus]) |} in
  run w [] (createWithRetry "QUJD") =
    ([Sent (Create ["QUJD"] true)], Fulfilled (Samples.wrap [Samples.ficus])) /\
  requests (fst (run w [] (identify false Samples.photo Samples.st0))) =
    requests [Sent (Create ["QUJD"] true)].
Proof.
  intros w. split; [reflexivity|].
  apply (tokenless_response_is_used_directly w Samples.photo Samples.st0 "QUJD"
           [Sent (Create ["QUJD"] true)] (Samples.wrap [Samples.ficus]));
    reflexivity.
Defined.

(** X6.  A retrieval that is refused is not retried: [identify] throws
    "Retrieve <status>: <body>" right after the one retrieval request.
    The retrieval is the request for a token that could be written into
    its address. *)
Theorem failed_retrieval_is_thrown w uri st base64 tr created res :
  param_truthy uri = true -> startsWith (String_ uri) "file://" = true ->
  readFile w (String_ uri) = Fulfilled base64 ->
  run w [] (createWithRetry base64) = (tr, Fulfilled created) ->
  let token := or_else (opt_get created "id") (opt_get created "access_token") in
  truthy token = true -> convertible token = true ->
  respond w (requests tr) (Retrieve token detail_fields "en") = Fulfilled res ->
  ok res = false ->
  run w [] (identify false uri st) =
    (Read (String_ uri) :: tr ++ [Sent (Retrieve token detail_fields "en")],
     Rejected ("Retrieve " ++ show_nat (status res) ++ ": " ++ text res)%string).
Proof.
  intros Hu Hf Hr Hc token Ht Hcv Hres Hok.
  unfold identify. rewrite Hu, Hf. cbn [negb orb run]. rewrite Hr.
  cbn [await bind]. rewrite run_bind, Hc. cbv zeta. fold token. rewrite Ht.
  rewrite run_bind. unfold retrieveIdentification. rewrite Hcv. cbn [negb run app].
  rewrite Hres. cbn [await bind]. rewrite Hok. reflexivity.
Qed.

Lemma failed_retrieval_is_thrown_witness :
  let w := {| readFile := fun _ => Fulfilled "QUJD";
              respond := fun _ r =>
                match r with
                | Create _ _ => Samples.answer 200 "{id:tok1}" Samples.created_tok1
                | Retrieve _ _ _ => Samples.answer 404 "not found" VNull
                end |} in
  run w [] (identify false Samples.photo Samples.st0) =
    ([ Read "file:///cache/Camera/photo.jpg";
       Sent (Create ["QUJD"] true);
       Sent (Retrieve (VStr "tok1") detail_fields "en") ],
     Rejected "Retrieve 404: not found").
Proof.
  intros w.
  apply (failed_retrieval_is_thrown w Samples.photo Samples.st0 "QUJD"
           [Sent (Create ["QUJD"] true)] Samples.created_tok1
           {| status := 404; text := "not found"; json := Parsed VNull |});
    reflexivity.
Defined.

(** ** What a candidate is made of *)

(** X7.  A mapped candidate always has a label to show: the name of the
    suggestion when it is truthy, the text "Unknown" otherwise.  Its
    gallery holds only truthy image references, and its details are
    either [null] or a truthy value. *)
Theorem candidate_is_presentable s c :
  mapSuggestion s = Ret c ->
  truthy (label c) = true /\
  (truthy (opt_get s "name") = true -> label c = opt_get s "name" /\ sci c = label c) /\
  (truthy (opt_get s "name") = false -> label c = VStr "Unknown") /\
  Forall (fun img => truthy img = true) (gallery c) /\
  (details c = VNull \/ truthy (details c) = true).
Proof.
  intros H. apply mapSuggestion_Ret_inv in H as (n & ref & imgs & _ & _ & ->). cbn.
  unfold or_else.
  destruct (truthy (opt_get s "name")) eqn:En;
  destruct (truthy (opt_get s "details")) eqn:Ed;
    repeat split; auto; try discriminate;
    try (apply Forall_forall; intros x Hx; apply filter_In in Hx; tauto).
Qed.

Lemma candidate_is_presentable_witness :
  mapSuggestion Samples.monstera =
    Ret {| label := VStr "Monstera"; sci := VStr "Monstera"; confidence := 0.4;
           details := VNull; gallery := [VStr "https://plant.id/img/1.jpg"] |} /\
  Forall (fun img => truthy img = true) [VStr "https://plant.id/img/1.jpg"].
Proof.
  split; [reflexivity|].
  destruct (candidate_is_presentable Samples.monstera
              {| label := VStr "Monstera"; sci := VStr "Monstera"; confidence := 0.4;
                 details := VNull; gallery := [VStr "https://plant.id/img/1.jpg"] |}
              eq_refl) as (_ & _ & _ & H & _).
  exact H.
Defined.

Lemma mapM_Throw_In {A B} (f : A -> io B) l x :
  (forall y, pure (f y)) -> In x l -> (exists e, f x = Throw e) ->
  exists e, mapM f l = Throw e.
Proof.
  intros Hp Hin [e He]. induction l as [|y l IH]; [contradiction|].
  simpl. destruct (Hp y) as [[b Hb] | [e' He']].
  - rewrite Hb. cbn [bind].
    destruct Hin as [-> | Hin]; [congruence|].
    destruct (IH Hin) as [e' He']. rewrite He'. cbn [bind]. eauto.
  - rewrite He'. cbn [bind]. eauto.
Qed.

(** X8.  One suggestion whose similar images are neither falsy nor an
    array makes the whole identification fail: [showSuggestions] throws,
    shows no candidate and no alert of its own. *)
Theorem malformed_suggestion_fails_all w sent uri st full ref items s :
  locateSuggestions full = VArr ref items ->
  In s items ->
  truthy (opt_get s "similar_images") = true ->
  (forall r l, opt_get s "similar_images" <> VArr r l) ->
  exists e, run w sent (showSuggestions uri st full) = ([], Rejected e).
Proof.
  intros Hloc Hin Ht Hna.
  assert (Hs : exists e, mapSuggestion s = Throw e).
  { unfold mapSuggestion, or_else. rewrite Ht.
    destruct (ToNumber _); [|eauto].
    destruct (opt_get s "similar_images") as [| | | | |r l|]; eauto.
    exfalso. eapply Hna. reflexivity. }
  destruct (mapM_Throw_In mapSuggestion items s pure_mapSuggestion Hin Hs) as [e He].
  exists e. unfold showSuggestions. rewrite Hloc.
  cbn [get]. simpl String.eqb. cbn [truthy]. rewrite of_nat_truthy.
  destruct items as [|i items]; [contradiction|]. simpl negb. cbv iota.
  rewrite He. reflexivity.
Qed.

Lemma malformed_suggestion_fails_all_witness :
  let s := VObj 30 [("name", VStr "Ficus"); ("similar_images", VStr "none")] in
  exists e,
    run (Samples.world_A []) [] (showSuggestions Samples.photo Samples.st0
                                   (Samples.wrap [Samples.ficus; s])) = ([], Rejected e).
Proof.
  intros s.
  apply (malformed_suggestion_fails_all (Samples.world_A []) [] Samples.photo Samples.st0
           (Samples.wrap [Samples.ficus; s]) 4 [Samples.ficus; s] s).
  - reflexivity.
  - right. left. reflexivity.
  - reflexivity.
  - intros r l H. discriminate H.
Defined.

(** X9.  No suggestion is dropped and none is invented: the state that
    [showSuggestions] returns has as many candidates as the located array
    has suggestions, and their labels are the labels of the suggestions,
    rearranged. *)
Theorem every_suggestion_is_shown w sent uri st full ref items tr st' :
  locateSuggestions full = VArr ref items ->
  run w sent (showSuggestions uri st full) = (tr, Fulfilled st') ->
  List.length (ordered st') = List.length items /\
  Permutation (map label (ordered st'))
    (map (fun s => or_else (opt_get s "name") (VStr "Unknown")) items).
Proof.
  intros Hloc H.
  apply showSuggestions_fulfilled_inv in H
    as [(_ & Hl & ->) | (ref' & items' & raw & top & rest & top' & _ & Hloc' & _ & Hraw & Es & Hh & ->)].
  - rewrite Hloc in Hl. cbn [get] in Hl. simpl String.eqb in Hl. cbn [truthy] in Hl.
    rewrite of_nat_truthy in Hl. destruct items; [split; constructor | discriminate Hl].
  - rewrite Hloc in Hloc'. inversion Hloc'; subst ref' items'. cbn [ordered].
    destruct (heroFallback_spec uri top rest) as (top'' & Hh' & Hsame & _).
    rewrite Hh in Hh'. inversion Hh'; subst top''.
    assert (Hlab : map label (top' :: rest) = map label (sort byConfidence raw)).
    { rewrite Es. cbn [map]. f_equal. apply Hsame. }
    split.
    + rewrite <- (mapM_Ret_length _ _ _ Hraw).
      rewrite <- (Permutation_length (sort_perm byConfidence raw)).
      rewrite Es. reflexivity.
    + rewrite Hlab.
      rewrite <- (mapM_Ret_map mapSuggestion label
                    (fun s => or_else (opt_get s "name") (VStr "Unknown")) items raw);
        [apply Permutation_map, sort_perm | | exact Hraw].
      intros x y Hy. apply mapSuggestion_Ret_inv in Hy as (? & ? & ? & _ & _ & ->).
      reflexivity.
Qed.

Lemma every_suggestion_is_shown_witness :
  exists st',
    run (Samples.world_A []) [] (showSuggestions Samples.photo Samples.st0
                                   (Samples.wrap Samples.suggestions)) = ([], Fulfilled st') /\
    List.length (ordered st') = 5%nat.
Proof.
  eexists. split; [reflexivity|].
  apply (every_suggestion_is_shown (Samples.world_A []) [] Samples.photo Samples.st0
           (Samples.wrap Samples.suggestions) 4 Samples.suggestions []);
    reflexivity.
Defined.

(** ** The first candidate *)

Lemma prefix_nonempty p s :
  String.prefix p s = true -> p <> EmptyString -> (s =? EmptyString)%string = false.
Proof. destruct s; [destruct p; [congruence | discriminate] | reflexivity]. Qed.

Lemma mapped_gallery_truthy items raw :
  mapM mapSuggestion items = Ret raw ->
  Forall (fun c => Forall (fun img => truthy img = true) (gallery c)) raw.
Proof.
  apply mapM_Ret_Forall. intros s c H.
  apply mapSuggestion_Ret_inv in H as (n & ref & imgs & _ & _ & ->). cbn [gallery].
  apply Forall_forall. intros x Hx. apply filter_In in Hx. tauto.
Qed.

(** X10.  After a live identification the first candidate always has an
    image to show: its gallery is not empty, and every entry of it is a
    truthy reference (its own similar images, or else the photo). *)
Theorem first_candidate_has_an_image w uri st tr st' top rest :
  run w [] (identify false uri st) = (tr, Fulfilled st') ->
  ordered st' = top :: rest ->
  gallery top <> [] /\ Forall (fun img => truthy img = true) (gallery top).
Proof.
  intros H Ho.
  apply identify_fulfilled_inv in H as (Hu & Hf & full & sent & tr' & H).
  apply showSuggestions_fulfilled_inv in H
    as [(_ & _ & ->) | (ref & items & raw & top0 & rest0 & top' & _ & _ & _ & Hraw & Es & Hh & ->)];
    [discriminate Ho|].
  cbn [ordered] in Ho. inversion Ho; subst top' rest0. clear Ho.
  destruct (heroFallback_spec uri top0 rest) as (top'' & Hh' & _ & Hg).
  rewrite Hh in Hh'. inversion Hh'; subst top''. clear Hh'.
  rewrite Hg, Hu, andb_true_r.
  assert (Htop : Forall (fun img => truthy img = true) (gallery top0)).
  { pose proof (mapped_gallery_truthy items raw Hraw) as Hall.
    rewrite Forall_forall in Hall. apply Hall.
    apply (Permutation_in _ (sort_perm byConfidence raw)). rewrite Es. now left. }
  destruct (gallery top0) as [|g gs] eqn:Eg.
  - split; [discriminate|]. constructor; [|constructor].
    cbn [truthy]. unfold startsWith in Hf.
    rewrite (prefix_nonempty _ _ Hf); [reflexivity | discriminate].
  - split; [discriminate | exact Htop].
Qed.

Lemma first_candidate_has_an_image_witness :
  exists tr st' top rest,
    run (Samples.world_A [Samples.ficus]) [] (identify false Samples.photo Samples.st0) =
      (tr, Fulfilled st') /\
    ordered st' = top :: rest /\
    gallery top = [VStr "file:///cache/Camera/photo.jpg"] /\
    gallery top <> [].
Proof.
  eexists _, _, _, _. split; [reflexivity|]. split; [reflexivity|].
  split; [reflexivity|].
  eapply (first_candidate_has_an_image (Samples.world_A [Samples.ficus]) Samples.photo
            Samples.st0); reflexivity.
Defined.

(** X11.  After a live identification the candidate on show is the best
    match: the current candidate is the first of the list, and no other
    candidate has a greater confidence, as the comparator reads it. *)
Theorem best_match_is_shown_first w uri st tr st' top rest :
  run w [] (identify false uri st) = (tr, Fulfilled st') ->
  ordered st' = top :: rest ->
  current st' = Some top /\
  forall c, In c rest -> (effective c <=? effective top)%float = true.
Proof.
  intros H Ho.
  apply identify_fulfilled_inv in H as (Hu & Hf & full & sent & tr' & H).
  apply showSuggestions_fulfilled_inv in H
    as [(_ & _ & ->) | (ref & items & raw & top0 & rest0 & top' & _ & _ & _ & Hraw & Es & Hh & ->)];
    [discriminate Ho|].
  cbn [ordered] in Ho. inversion Ho; subst top' rest0. clear Ho.
  split; [reflexivity|].
  destruct (heroFallback_spec uri top0 rest) as (top'' & Hh' & Hsame & _).
  rewrite Hh in Hh'. inversion Hh'; subst top''. clear Hh'.
  pose proof (sorted_effective raw) as Hs. rewrite Es in Hs.
  apply StronglySorted_inv in Hs as [_ Hall]. rewrite Forall_forall in Hall.
  intros c Hc. specialize (Hall c Hc).
  rewrite leb_fval. unfold effective in *. rewrite !num_or_num. cbn [andb].
  apply Z.leb_le. destruct Hsame as (_ & _ & -> & _). exact Hall.
Qed.

Lemma best_match_is_shown_first_witness :
  exists tr st' top rest,
    run (Samples.world_A Samples.suggestions) [] (identify false Samples.photo Samples.st0) =
      (tr, Fulfilled st') /\
    ordered st' = top :: rest /\
    label top = VStr "Ficus" /\
    current st' = Some top.
Proof.
  eexists _, _, _, _. split; [reflexivity|]. split; [reflexivity|].
  split; [reflexivity|].
  eapply (best_match_is_shown_first (Samples.world_A Samples.suggestions) Samples.photo
            Samples.st0); reflexivity.
Defined.

(** ** The current index *)

Lemma findIndex_bounds {A} (p : A -> bool) l :
  -1 <= findIndex p l < Z.of_nat (List.length l).
Proof.
  induction l as [|x l IH]; cbn [findIndex List.length]; [lia|].
  destruct (p x); [lia|].
  destruct (Z.leb_spec 0 (findIndex p l)); lia.
Qed.

(** X12.  The current index always points at a candidate, or there is no
    candidate and it is 0.  Every state that [identify] returns, mock or
    live, is so; [promote] and [onBackPress] keep it so; and in such a
    state with at least one candidate there is a current candidate. *)
Theorem current_index_stays_valid :
  (forall w sent fake uri st tr st',
     run w sent (identify fake uri st) = (tr, Fulfilled st') -> wellFormed st') /\
  (forall option st, wellFormed st -> wellFormed (promote option st)) /\
  (forall st, wellFormed st -> wellFormed (fst (onBackPress st))) /\
  (forall st, wellFormed st -> ordered st <> [] -> exists c, current st = Some c).
Proof.
  split; [|split; [|split]].
  - intros w sent fake uri st tr st' H.
    apply identify_fulfilled_loading in H as [_ H]. unfold wellFormed. rewrite H.
    split; [lia|].
    destruct (ordered st'); [right; auto | left; cbn [List.length]; lia].
  - intros option st H. unfold promote.
    pose proof (findIndex_bounds (fun x => strict_eq (label x) (label option)) (ordered st)).
    destruct (Z.leb_spec 0 (findIndex (fun x => strict_eq (label x) (label option)) (ordered st)));
      [|exact H].
    split; [|left]; cbn [currentIndex ordered]; lia.
  - intros st H. unfold onBackPress.
    destruct (negb (currentIndex st =? 0)); [|exact H].
    split; cbn [fst currentIndex ordered]; [lia|].
    destruct (ordered st); [right; auto | left; cbn [List.length]; lia].
  - intros st [H0 [Hlt | [He _]]] Hne; [|contradiction].
    unfold current. destruct (Z.leb_spec 0 (currentIndex st)); [|lia].
    destruct (nth_error (ordered st) (Z.to_nat (currentIndex st))) eqn:E; [eauto|].
    apply nth_error_None in E. lia.
Qed.

Lemma current_index_stays_valid_witness :
  let st := {| loading := false; ordered := mock; currentIndex := 2;
               showOthers := true; active := 1 |} in
  wellFormed st /\ wellFormed (fst (onBackPress st)) /\ exists c, current st = Some c.
Proof.
  intros st.
  assert (Hw : wellFormed st) by (split; [|left]; cbn; lia).
  destruct current_index_stays_valid as (_ & _ & Hb & Hc).
  split; [exact Hw|]. split; [apply Hb, Hw|]. apply Hc; [exact Hw | discriminate].
Defined.

(** ** The alternatives *)

Lemma strict_eq_refl v : truthy v = true -> strict_eq v v = true.
Proof.
  destruct v as [| |b|n|s|r l|r f]; cbn; try discriminate; intros H.
  - apply Bool.eqb_reflx.
  - unfold num_truthy, is_nan in H. apply negb_true_iff, orb_false_iff in H as [H _].
    now apply negb_false_iff in H.
  - apply String.eqb_refl.
  - apply Nat.eqb_refl.
  - apply Nat.eqb_refl.
Qed.

Lemma dropIndex_In {A} k i (l : list A) x : In x (dropIndex k i l) -> In x l.
Proof.
  revert i. induction l as [|y l IH]; intros i; cbn [dropIndex]; [auto|].
  destruct (i =? k); cbn [In]; intros H; [right; eauto|].
  destruct H; [now left | right; eauto].
Qed.

Lemma dropIndex_length {A} k i (l : list A) :
  List.length (dropIndex k i l) =
    if (i <=? k) && (k <? i + Z.of_nat (List.length l))
    then (List.length l - 1)%nat else List.length l.
Proof.
  revert i. induction l as [|y l IH]; intros i; cbn [dropIndex List.length].
  - destruct (i <=? k), (k <? i + Z.of_nat 0); reflexivity.
  - rewrite Nat2Z.inj_succ.
    destruct (Z.eqb_spec i k) as [-> | Hne].
    + rewrite IH.
      replace (k + 1 <=? k) with false by (symmetry; apply Z.leb_gt; lia).
      replace (k <=? k) with true by (symmetry; apply Z.leb_le; lia).
      replace (k <? k + Z.succ (Z.of_nat (List.length l))) with true
        by (symmetry; apply Z.ltb_lt; lia).
      cbn. lia.
    + cbn [List.length]. rewrite IH.
      destruct (Z.leb_spec (i + 1) k), (Z.leb_spec i k),
        (Z.ltb_spec k (i + 1 + Z.of_nat (List.length l))),
        (Z.ltb_spec k (i + Z.succ (Z.of_nat (List.length l)))); cbn [andb]; lia.
Qed.

Lemma dropIndex_position {A} k (l : list A) x : forall i,
  In x (dropIndex k i l) ->
  exists j, i + Z.of_nat j <> k /\ nth_error l j = Some x.
Proof.
  induction l as [|y l IH]; intros i; cbn [dropIndex]; [contradiction|].
  destruct (Z.eqb_spec i k) as [E | Hne].
  - intros H. destruct (IH _ H) as (j & Hj & Hn). exists (S j). split; [lia | exact Hn].
  - intros [-> | H].
    + exists 0%nat. split; [lia | reflexivity].
    + destruct (IH _ H) as (j & Hj & Hn). exists (S j). split; [lia | exact Hn].
Qed.

Lemma dropIndex_outside {A} k (l : list A) : forall i,
  k < i \/ i + Z.of_nat (List.length l) <= k -> dropIndex k i l = l.
Proof.
  induction l as [|y l IH]; intros i H; cbn [dropIndex]; [reflexivity|].
  cbn [List.length] in H. rewrite Nat2Z.inj_succ in H.
  destruct (Z.eqb_spec i k) as [E | Hne]; [lia|].
  f_equal. apply IH. lia.
Qed.

Lemma dropIndex_inside {A} (l : list A) : forall i n,
  (n < List.length l)%nat ->
  dropIndex (i + Z.of_nat n) i l = firstn n l ++ skipn (S n) l.
Proof.
  induction l as [|y l IH]; intros i n Hn; cbn [List.length] in Hn; [lia|].
  cbn [dropIndex]. destruct n as [|n].
  - replace (i + Z.of_nat 0) with i by lia. rewrite Z.eqb_refl.
    cbn [firstn skipn app]. apply dropIndex_outside. lia.
  - destruct (Z.eqb_spec i (i + Z.of_nat (S n))) as [E | _]; [lia|].
    cbn [firstn skipn app]. f_equal.
    replace (i + Z.of_nat (S n)) with (i + 1 + Z.of_nat n) by lia.
    apply IH. lia.
Qed.

(** X13.  The alternatives are the first two of the candidates other than
    the current one, in the order of the list: with the current index [i]
    pointing into the list they are the first two of the list without its
    entry [i] (with [i = 0], the second and the third candidate).  So they
    are at most two, each of them sits at a position other than [i], and
    there is none exactly when the list has no second candidate.  With an
    index outside the list they are the first two candidates. *)
Theorem alternatives_are_the_next_two st :
  (List.length (others st) <= 2)%nat /\
  (forall c, In c (others st) -> In c (ordered st)) /\
  (forall c, In c (others st) ->
   exists j, Z.of_nat j <> currentIndex st /\ nth_error (ordered st) j = Some c) /\
  (0 <= currentIndex st < Z.of_nat (List.length (ordered st)) ->
   others st = firstn 2 (firstn (Z.to_nat (currentIndex st)) (ordered st) ++
                         skipn (S (Z.to_nat (currentIndex st))) (ordered st)) /\
   List.length (others st) = Nat.min 2 (List.length (ordered st) - 1) /\
   (others st = [] <-> (List.length (ordered st) <= 1)%nat)) /\
  (currentIndex st = 0 -> others st = firstn 2 (tl (ordered st))) /\
  (currentIndex st < 0 \/ Z.of_nat (List.length (ordered st)) <= currentIndex st ->
   others st = firstn 2 (ordered st)).
Proof.
  unfold others.
  assert (Hin : forall c, In c (firstn 2 (dropIndex (currentIndex st) 0 (ordered st))) ->
                          In c (dropIndex (currentIndex st) 0 (ordered st))).
  { intros c Hc.
    rewrite <- (firstn_skipn 2 (dropIndex (currentIndex st) 0 (ordered st))).
    apply in_or_app. now left. }
  split; [|split; [|split; [|split; [|split]]]].
  - rewrite length_firstn. lia.
  - intros c Hc. apply (dropIndex_In (currentIndex st) 0), Hin, Hc.
  - intros c Hc. apply Hin, dropIndex_position in Hc as (j & Hj & Hn).
    exists j. split; [lia | exact Hn].
  - intros Hv.
    assert (Hl : List.length (firstn 2 (dropIndex (currentIndex st) 0 (ordered st)))
                 = Nat.min 2 (List.length (ordered st) - 1)).
    { rewrite length_firstn, dropIndex_length.
      replace (0 <=? currentIndex st) with true by (symmetry; apply Z.leb_le; lia).
      replace (currentIndex st <? 0 + Z.of_nat (List.length (ordered st))) with true
        by (symmetry; apply Z.ltb_lt; lia).
      reflexivity. }
    split; [|split; [exact Hl|split]].
    + f_equal.
      rewrite <- (dropIndex_inside (ordered st) 0 (Z.to_nat (currentIndex st))) by lia.
      f_equal. lia.
    + intros E. rewrite E in Hl. cbn [List.length] in Hl. lia.
    + intros Hle. apply length_zero_iff_nil. lia.
  - intros ->. destruct (ordered st) as [|c l]; [reflexivity|].
    cbn [dropIndex tl]. rewrite Z.eqb_refl. f_equal. apply dropIndex_outside. lia.
  - intros H. f_equal. apply dropIndex_outside. lia.
Qed.

Lemma alternatives_are_the_next_two_witness :
  let st := {| loading := false; ordered := mock; currentIndex := 1;
               showOthers := true; active := 0 |} in
  map label (others st) = [VStr "String of Buttons"; VStr "Crassula perforata"] /\
  others st = firstn 2 (firstn 1 mock ++ skipn 2 mock) /\
  List.length (others st) = Nat.min 2 (List.length (ordered st) - 1).
Proof.
  intros st. split; [reflexivity|].
  destruct (alternatives_are_the_next_two st) as (_ & _ & _ & H & _).
  destruct H as (H1 & H2 & _); [cbn; lia|].
  split; [exact H1 | exact H2].
Defined.

(** X14.  Every alternative on offer can be promoted: when its label is
    truthy (as the label of every mapped candidate is), [promote] makes
    current a candidate that carries this label, closes the alternatives
    and resets the pager, and the list is untouched. *)
Theorem alternative_can_be_promoted st opt :
  In opt (others st) -> truthy (label opt) = true ->
  exists k c,
    currentIndex (promote opt st) = Z.of_nat k /\
    nth_error (ordered st) k = Some c /\
    strict_eq (label c) (label opt) = true /\
    current (promote opt st) = Some c /\
    showOthers (promote opt st) = false /\
    active (promote opt st) = 0 /\
    ordered (promote opt st) = ordered st.
Proof.
  intros Hin Ht.
  assert (Hocc : exists x, In x (ordered st) /\
                   (fun x => strict_eq (label x) (label opt)) x = true).
  { exists opt. split; [|now apply strict_eq_refl].
    unfold others in Hin.
    apply (dropIndex_In (currentIndex st) 0).
    rewrite <- (firstn_skipn 2 (dropIndex (currentIndex st) 0 (ordered st))).
    apply in_or_app. now left. }
  destruct (findIndex_some _ _ Hocc) as (k & c & Hk & Hc & Hfirst).
  exists k, c. unfold promote, current.
  rewrite (findIndex_first (fun x => strict_eq (label x) (label opt)) _ k c Hk Hc Hfirst).
  destruct (Z.leb_spec 0 (Z.of_nat k)); [|lia].
  cbn [currentIndex ordered showOthers active].
  destruct (Z.leb_spec 0 (Z.of_nat k)); [|lia].
  rewrite Nat2Z.id. repeat split; assumption.
Qed.

Lemma alternative_can_be_promoted_witness :
  let st := {| loading := false; ordered := mock; currentIndex := 0;
               showOthers := true; active := 1 |} in
  exists opt,
    nth_error (others st) 1 = Some opt /\
    label opt = VStr "Crassula perforata" /\
    exists k c, currentIndex (promote opt st) = Z.of_nat k /\
                nth_error (ordered st) k = Some c /\
                strict_eq (label c) (label opt) = true.
Proof.
  intros st. eexists. split; [reflexivity|]. split; [reflexivity|].
  edestruct (alternative_can_be_promoted st) as (k & c & H1 & H2 & H3 & _).
  - right. left. reflexivity.
  - reflexivity.
  - exists k, c. repeat split; eassumption.
Defined.

(** X15.  The back button first returns to the first suggestion and only
    then leaves: away from index 0 it sets the index to 0, closes the
    alternatives, keeps the candidates and does not leave; at index 0 it
    leaves without touching the state.  A second press therefore always
    leaves. *)
Theorem back_returns_to_first_then_leaves st :
  (currentIndex st <> 0 ->
   snd (onBackPress st) = false /\
   currentIndex (fst (onBackPress st)) = 0 /\
   showOthers (fst (onBackPress st)) = false /\
   ordered (fst (onBackPress st)) = ordered st /\
   current (fst (onBackPress st)) = nth_error (ordered st) 0) /\
  (currentIndex st = 0 -> onBackPress st = (st, true)) /\
  snd (onBackPress (fst (onBackPress st))) = true.
Proof.
  unfold onBackPress.
  destruct (Z.eqb_spec (currentIndex st) 0) as [E | E]; cbn [negb].
  - repeat split; try contradiction.
    cbn [fst]. rewrite E. reflexivity.
  - repeat split; try contradiction; reflexivity.
Qed.

Lemma back_returns_to_first_then_leaves_witness :
  let st := {| loading := false; ordered := mock; currentIndex := 2;
               showOthers := true; active := 1 |} in
  currentIndex st <> 0 /\
  snd (onBackPress st) = false /\
  currentIndex (fst (onBackPress st)) = 0.
Proof.
  intros st. split; [discriminate|].
  destruct (back_returns_to_first_then_leaves st) as [H _].
  destruct H as (H1 & H2 & _); [discriminate|]. split; assumption.
Defined.

(** ** More on the badges *)

Lemma leb_trans x y z :
  (x <=? y)%float = true -> (y <=? z)%float = true -> (x <=? z)%float = true.
Proof.
  rewrite !leb_fval.
  intros [[Nx Ny]%andb_prop L1%Z.leb_le]%andb_prop [[_ Nz]%andb_prop L2%Z.leb_le]%andb_prop.
  rewrite Nx, Nz. simpl. apply Z.leb_le. lia.
Qed.

Lemma leb_false_iff x y :
  (x <=? y)%float = false <->
  is_nan x = true \/ is_nan y = true \/ (y <? x)%float = true.
Proof.
  rewrite leb_fval, ltb_fval, !is_nan_num.
  destruct (is_num (Prim2SF x)), (is_num (Prim2SF y)); cbn [andb negb];
    try (split; [auto | reflexivity]).
  destruct (Z.leb_spec (fval x) (fval y)), (Z.ltb_spec (fval y) (fval x)); lia.
Qed.

(** X16.  The care badge never goes down when the average goes up: of two
    watering ranges, the one whose average is not greater gets a badge
    that stands for no more water.  Missing bounds count as 0.5 here
    too. *)
Theorem care_badge_is_monotone d1 w1 d2 w2 :
  watering d1 = Some w1 -> watering d2 = Some w2 ->
  (wateringAvg w1 <=? wateringAvg w2)%float = true ->
  (thirst (careBadge (Some d1)) <= thirst (careBadge (Some d2)))%nat.
Proof.
  intros H1 H2 Hle.
  rewrite (careBadge_watering d1 w1 H1), (careBadge_watering d2 w2 H2).
  destruct (wateringAvg w2 <=? 0.25)%float eqn:E2.
  - rewrite (leb_trans _ _ _ Hle E2). cbn. lia.
  - destruct (wateringAvg w2 <=? 0.55)%float eqn:E2'.
    + rewrite (leb_trans _ _ _ Hle E2').
      destruct (wateringAvg w1 <=? 0.25)%float; cbn; lia.
    + destruct (wateringAvg w1 <=? 0.25)%float;
        [|destruct (wateringAvg w1 <=? 0.55)%float]; cbn; lia.
Qed.

Lemma care_badge_is_monotone_witness :
  let d x := {| common_names := []; wiki_description := None; edible_parts := [];
                watering := Some {| min := Some x; max := None |}; url := None |} in
  (wateringAvg {| min := Some 0.125%float; max := None |}
     <=? wateringAvg {| min := Some 0.75%float; max := None |})%float = true /\
  (thirst (careBadge (Some (d 0.125%float))) <= thirst (careBadge (Some (d 0.75%float))))%nat.
Proof.
  intros d. split; [reflexivity|].
  apply (care_badge_is_monotone (d 0.125%float) {| min := Some 0.125%float; max := None |}
           (d 0.75%float) {| min := Some 0.75%float; max := None |});
    reflexivity.
Defined.

(** X17.  With a watering range the badge is "Thirsty" exactly when the
    average is above 0.55 or is no number at all: an average that is
    [NaN] (from bounds such as plus and minus infinity) fails both
    comparisons and falls through to "Thirsty". *)
Theorem thirsty_when_above_or_not_a_number d w :
  watering d = Some w ->
  (careBadge (Some d) = "Thirsty" <->
   is_nan (wateringAvg w) = true \/ (0.55 <? wateringAvg w)%float = true).
Proof.
  intros Hw. rewrite (careBadge_watering d w Hw).
  assert (Hrhs : (wateringAvg w <=? 0.55)%float = false <->
                 is_nan (wateringAvg w) = true \/ (0.55 <? wateringAvg w)%float = true).
  { rewrite leb_false_iff. split; [intros [H | [H | H]] | intros [H | H]]; auto.
    discriminate H. }
  destruct (wateringAvg w <=? 0.25)%float eqn:E1.
  - assert (E2 : (wateringAvg w <=? 0.55)%float = true)
      by (apply leb_trans with (1 := E1); reflexivity).
    split; [discriminate|]. intros H. apply Hrhs in H. congruence.
  - destruct (wateringAvg w <=? 0.55)%float eqn:E2.
    + split; [discriminate|]. intros H. apply Hrhs in H. congruence.
    + split; [intros _; now apply Hrhs | reflexivity].
Qed.

Lemma thirsty_when_above_or_not_a_number_witness :
  let w := {| min := Some infinity; max := Some neg_infinity |} in
  let d := {| common_names := []; wiki_description := None; edible_parts := [];
              watering := Some w; url := None |} in
  is_nan (wateringAvg w) = true /\ careBadge (Some d) = "Thirsty".
Proof.
  intros w d. split; [reflexivity|].
  apply (thirsty_when_above_or_not_a_number d w eq_refl). left. reflexivity.
Defined.

Lemma prefix_toLowerCase p s :
  String.prefix p s = true -> String.prefix (toLowerCase p) (toLowerCase s) = true.
Proof.
  revert p. induction s as [|c s IH]; intros [|a p]; cbn; try reflexivity; try discriminate.
  destruct (ascii_dec a c) as [-> | Hne]; [|discriminate].
  intros H. destruct (ascii_dec (lower c) (lower c)); [auto | congruence].
Qed.

Lemma includes_toLowerCase s p :
  includes s p = true -> includes (toLowerCase s) (toLowerCase p) = true.
Proof.
  induction s as [|c s IH]; cbn [includes toLowerCase]; intros H.
  - apply orb_prop in H as [H | H]; [|discriminate].
    apply prefix_toLowerCase in H. cbn [toLowerCase] in H. now rewrite H.
  - apply orb_prop in H as [H | H].
    + apply prefix_toLowerCase in H. cbn [toLowerCase] in H. now rewrite H.
    + rewrite (IH H). apply orb_true_r.
Qed.

(** X18.  The flowering badge does not depend on the letter case: a
    description that contains the word "flower" written in any mix of
    upper and lower case gets "Flowering". *)
Theorem flowering_ignores_case d v word :
  wiki_description d = Some v ->
  toLowerCase word = "flower" ->
  includes v word = true ->
  floweringBadge (Some d) = "Flowering".
Proof.
  intros Hd Hw Hin. unfold floweringBadge. rewrite Hd.
  apply includes_toLowerCase in Hin. rewrite Hw in Hin. now rewrite Hin.
Qed.

Lemma flowering_ignores_case_witness :
  let d := {| common_names := []; wiki_description := Some "Large FLOWERS in spring.";
              edible_parts := []; watering := None; url := None |} in
  includes "Large FLOWERS in spring." "FLOWER" = true /\
  floweringBadge (Some d) = "Flowering".
Proof.
  intros d. split; [reflexivity|].
  apply (flowering_ignores_case d "Large FLOWERS in spring." "FLOWER"); reflexivity.
Defined.

(** ** The result screen *)

(** X19.  Pressing "Identify" on the result screen never ends in an
    exception.  Without a photo it only shows the alert "No photo" and
    leaves the state alone, sending nothing.  With a photo it ends with
    [loading = false]; the predictions are replaced when [identifyPlant]
    returns (with the alert "No matches" when there is none) and are kept
    when it throws, after one alert "Identification failed" of at most
    300 characters. *)
Theorem onIdentify_always_settles w sent uri st :
  exists tr st',
    run w sent (Result.onIdentify uri st) = (tr, Fulfilled st') /\
    (Result.hasPhoto uri = false ->
     tr = [Alerted "No photo" "Please capture a photo first."] /\ st' = st) /\
    (Result.hasPhoto uri = true ->
     Result.loading st' = false /\
     match run w sent (Result.identifyPlant (String_ uri)) with
     | (tr0, Fulfilled results) =>
         Result.preds st' = Some results /\
         tr = tr0 ++
              match results with
              | [] => [Alerted "No matches"
                         "Try a closer, well-lit photo of a single leaf/flower."]
              | _ => []
              end
     | (tr0, Rejected e) =>
         Result.preds st' = Result.preds st /\
         exists msg, tr = tr0 ++ [Alerted "Identification failed" msg] /\
                     (String.length msg <= 300)%nat
     end).
Proof.
  unfold Result.onIdentify. destruct (Result.hasPhoto uri) eqn:Hp; cbn [negb].
  - rewrite run_bind, run_try_catch, run_bind.
    destruct (run w sent (Result.identifyPlant (String_ uri))) as [tr0 [results | e]].
    + destruct results as [|p ps]; cbn [run app]; rewrite ?app_nil_r;
        eexists _, _; (split; [reflexivity|]); (split; [discriminate|]);
        intros _; repeat split; try reflexivity.
    + cbn [run app]. rewrite app_nil_r.
      eexists _, _. split; [reflexivity|]. split; [discriminate|].
      intros _. repeat split. eexists. split; [reflexivity | apply slice0_length].
  - cbn [run]. eexists _, _. split; [reflexivity|]. split; [auto | discriminate].
Qed.

(** X20.  On the result screen a creation that is answered with a success
    status and a body that is no JSON is never retried: the error is
    "Create: Invalid JSON response", whatever the parser reports.  On the
    details screen the parser's own message is thrown instead, and it
    takes part in the test for the retry. *)
Theorem invalid_json_is_not_retried w sent base64 res e :
  respond w sent (Create [base64] true) = Fulfilled res ->
  ok res = true -> json res = SyntaxError e ->
  run w sent (Result.createWithRetry base64) =
    ([Sent (Create [base64] true)], Rejected "Create: Invalid JSON response") /\
  run w sent (createWithRetry base64) =
    if includes e "Create 400"
    then ([Sent (Create [base64] true);
           Sent (Create [("data:image/jpeg;base64," ++ base64)%string] true)],
          createResult (respond w (sent ++ [Create [base64] true])
                          (Create [("data:image/jpeg;base64," ++ base64)%string] true)))
    else ([Sent (Create [base64] true)], Rejected e).
Proof.
  intros Hr Hok Hj. split.
  - unfold Result.createWithRetry, Result.createIdentification at 1.
    cbn [try_catch run]. rewrite Hr. cbn [await bind try_catch].
    rewrite Hok, Hj. reflexivity.
  - rewrite run_createWithRetry. cbv zeta. rewrite Hr.
    unfold createResult at 1. rewrite Hok, Hj. reflexivity.
Qed.

Lemma invalid_json_is_not_retried_witness :
  let w := {| readFile := fun _ => Fulfilled "QUJD";
              respond := fun _ _ =>
                Fulfilled {| status := 200; text := "<html>";
                             json := SyntaxError "Unexpected token <" |} |} in
  run w [] (Result.createWithRetry "QUJD") =
    ([Sent (Create ["QUJD"] true)], Rejected "Create: Invalid JSON response").
Proof.
  intros w.
  destruct (invalid_json_is_not_retried w [] "QUJD"
              {| status := 200; text := "<html>"; json := SyntaxError "Unexpected token <" |}
              "Unexpected token <" eq_refl eq_refl eq_refl) as [H _].
  exact H.
Defined.

Lemma status_400_is_retried_witness :
  respond (Samples.world_B [Samples.ficus]) [] (Create ["QUJD"] true) =
    Samples.answer 400 "{error:bad image}" VNull /\
  run (Samples.world_B [Samples.ficus]) [] (createWithRetry "QUJD") =
    ([Sent (Create ["QUJD"] true); Sent (Create ["data:image/jpeg;base64,QUJD"] true)],
     Fulfilled Samples.created_tok1).
Proof.
  split; [reflexivity|].
  apply (status_400_is_retried (Samples.world_B [Samples.ficus]) [] "QUJD"
           {| status := 400; text := "{error:bad image}"; json := Parsed VNull |});
    reflexivity.
Defined.

Lemma other_status_is_not_retried_witness :
  let w := {| readFile := fun _ => Fulfilled "QUJD";
              respond := fun _ _ => Samples.answer 401 "invalid api key" VNull |} in
  run w [] (createWithRetry "QUJD") =
    ([Sent (Create ["QUJD"] true)], Rejected "Create 401: invalid api key").
Proof.
  intros w.
  apply (other_status_is_not_retried w [] "QUJD"
           {| status := 401; text := "invalid api key"; json := Parsed VNull |});
    try reflexivity.
  - cbn. lia.
  - discriminate.
Defined.

Lemma onIdentify_always_settles_witness :
  let st := {| Result.loading := false; Result.preds := None |} in
  Result.hasPhoto PMissing = false /\
  exists tr st',
    run (Samples.world_A [Samples.ficus]) [] (Result.onIdentify PMissing st) =
      (tr, Fulfilled st') /\
    tr = [Alerted "No photo" "Please capture a photo first."] /\ st' = st.
Proof.
  intros st. split; [reflexivity|].
  destruct (onIdentify_always_settles (Samples.world_A [Samples.ficus]) [] PMissing st)
    as (tr & st' & Hrun & Hno & _).
  exists tr, st'. split; [exact Hrun|]. apply Hno. reflexivity.
Defined.

Lemma hero_kept_witness :
  locateSuggestions (Samples.wrap [Samples.monstera]) = VArr 4 [Samples.monstera] /\
  showSuggestions Samples.photo Samples.st0 (Samples.wrap [Samples.monstera]) =
    Ret {| loading := false;
           ordered :=
             [ {| label := VStr "Monstera"; sci := VStr "Monstera"; confidence := 0.4;
                  details := VNull;
                  gallery := [VStr "https://plant.id/img/1.jpg"] |} ];
           currentIndex := 0; showOthers := false; active := 0 |}.
Proof.
  split; [reflexivity|].
  apply (hero_kept Samples.photo Samples.st0 (Samples.wrap [Samples.monstera])
           4 [Samples.monstera]
           [ {| label := VStr "Monstera"; sci := VStr "Monstera"; confidence := 0.4;
                details := VNull; gallery := [VStr "https://plant.id/img/1.jpg"] |} ]
           {| label := VStr "Monstera"; sci := VStr "Monstera"; confidence := 0.4;
              details := VNull; gallery := [VStr "https://plant.id/img/1.jpg"] |} []);
    try reflexivity.
  discriminate.
Defined.

Example badges_of_the_first_mock_candidate :
  let d := {| common_names := ["String of Buttons"];
              wiki_description :=
                Some "A creeping succulent with blue-green, button-like leaves.";
              edible_parts := [];
              watering := Some {| min := Some 0.1%float; max := Some 0.3%float |};
              url := Some "https://en.wikipedia.org/wiki/Curio_repens" |} in
  careBadge (Some d) = "Easy Care" /\
  edibleBadge (Some d) = "Not edible" /\
  floweringBadge (Some d) = "Foliage".
Proof. repeat split; reflexivity. Qed.
